(** * Unicorn Contracts: contract status propagation

    A shallow embedding of the contracts service:
    - [contractEventHandler.ts]: the SQS-driven command processor
      ([handler], [parseRecord], [updateContract], [createContract]);
    - the [CfnPipe] of the CDK stack: filter criteria and input template that
      turn a table stream record into a [ContractStatusChanged] event;
    - [contractExistsChecker]: the existence check called by the workflow.

    DynamoDB, the SQS event source and the pipe runtime are services the code
    talks to; they are modelled here by the small part of their documented
    behaviour that the code relies on. *)

From Stdlib Require Import Ascii.
From stdpp Require Import gmap strings list fin_maps.

Local Open Scope string_scope.

(** ** JavaScript values *)

(** The values [JSON.parse] can return, which are also the shape of the
    events the pipe receives. Objects are finite maps from property names; a
    number is kept as its decimal text. *)
#[warnings="-register-all"]
Inductive json :=
  | JNull
  | JBool (b : bool)
  | JNum (n : string)
  | JStr (s : string)
  | JArr (l : list json)
  | JObj (m : gmap string json).

(** [v.k] for a value [v] that is not null and a name [k] that is no built-in
    property of strings or arrays: [undefined] is [None]. *)
Definition prop (v : json) (k : string) : option json :=
  match v with
  | JObj m => m !! k
  | _ => None
  end.

(** [$.k1.k2...] resolved from [v]. *)
Fixpoint json_path (p : list string) (v : json) : option json :=
  match p with
  | [] => Some v
  | k :: p' => match prop v k with
               | Some v' => json_path p' v'
               | None => None
               end
  end.

(** What a [throw] carries. *)
Inductive Thrown :=
  | Error (message : string)
  | TypeError (message : string)
  | SyntaxError (message : string)
  | RangeError (message : string)
  | ServiceException (name : string)
  | ContractError (propertyId : option json) (name message : string) (code : Z)
  | ContractStatusNotFoundException (statusCode : Z).

(** A call returns or throws. *)
Inductive Outcome (A : Type) :=
  | Return (a : A)
  | Throw (e : Thrown).

Arguments Return {A} a.
Arguments Throw {A} e.

#[global] Instance Outcome_ret : MRet Outcome := λ A a, Return a.

#[global] Instance Outcome_bind : MBind Outcome := λ A B f m,
  match m with
  | Return a => f a
  | Throw e => Throw e
  end.

(** [v.k]: a [TypeError] when [v] is [undefined] or [null]. *)
Definition get_member (v : option json) (k : string) : Outcome (option json) :=
  match v with
  | None =>
      Throw (TypeError ("Cannot read properties of undefined (reading '" +:+ k +:+ "')"))
  | Some JNull =>
      Throw (TypeError ("Cannot read properties of null (reading '" +:+ k +:+ "')"))
  | Some v' => Return (prop v' k)
  end.

(** [v === undefined] *)
Definition is_undefined (v : option json) : bool :=
  match v with
  | None => true
  | Some _ => false
  end.

(** [v === s] for a string [s] *)
Definition strict_eq_string (v : option json) (s : string) : bool :=
  match v with
  | Some (JStr s') => bool_decide (s' = s)
  | _ => false
  end.

(** ** DynamoDB *)

Module DynamoDB.

(** Attribute values, the scalar types. *)
Inductive AttributeValue :=
  | AV_S (s : string)
  | AV_N (n : string)
  | AV_BOOL (b : bool)
  | AV_NULL.

#[global] Instance AttributeValue_eq_dec : EqDecision AttributeValue.
Proof. solve_decision. Defined.

Abbreviation Item := (gmap string AttributeValue).

(** The contracts table: [partitionKey: { name: "property_id", type: STRING }],
    so the items are indexed by the string value of [property_id]. *)
Abbreviation Table := (gmap string Item).

Definition partitionKey : string := "property_id".

(** One entry of the table stream ([StreamViewType.NEW_AND_OLD_IMAGES]). *)
Record StreamRecord := {
  eventName : string;
  Keys : Item;
  OldImage : option Item;
  NewImage : option Item;
}.

(** The operands and conditions used by the service's expressions. *)
Inductive Operand :=
  | Path (a : string)
  | Placeholder (v : string).

Inductive Condition :=
  | attribute_exists (a : string)
  | attribute_not_exists (a : string)
  | CondEq (l r : Operand)
  | CondAnd (c1 c2 : Condition).

(** [SET a = :v] actions, in order. *)
Abbreviation UpdateExpr := (list (string * string)).

Record UpdateItemCommandInput := {
  Key : Item;
  UpdateExpression : UpdateExpr;
  ConditionExpression : option Condition;
  ExpressionAttributeValues : Item;
}.

Record GetItemCommandInput := {
  GetKey : Item;
  ProjectionExpression : list string;
}.

Definition operand (vals item : Item) (o : Operand) : option AttributeValue :=
  match o with
  | Path a => item !! a
  | Placeholder v => vals !! v
  end.

(** A condition is evaluated against the stored item; an absent item has no
    attributes. A comparison with a missing attribute is false. *)
Fixpoint holds (vals item : Item) (c : Condition) : bool :=
  match c with
  | attribute_exists a => bool_decide (is_Some (item !! a))
  | attribute_not_exists a => bool_decide (item !! a = None)
  | CondEq l r =>
      match operand vals item l, operand vals item r with
      | Some x, Some y => bool_decide (x = y)
      | _, _ => false
      end
  | CondAnd c1 c2 => holds vals item c1 && holds vals item c2
  end.

Fixpoint apply_set (vals : Item) (u : UpdateExpr) (item : Item) : option Item :=
  match u with
  | [] => Some item
  | (a, v) :: u' =>
      match vals !! v with
      | Some x => apply_set vals u' (<[a := x]> item)
      | None => None
      end
  end.

(** The key of a request must be exactly the partition key, as a string. *)
Definition key_of (k : Item) : option string :=
  match k !! partitionKey with
  | Some (AV_S s) => if decide (k = {[ partitionKey := AV_S s ]}) then Some s else None
  | _ => None
  end.

Inductive UpdateResult :=
  | Rejected (exception : string)
  | Accepted (k : string) (old : option Item) (new : Item).

(** [UpdateItem]: the condition is checked against the stored item and the
    write happens in the same step. Without a stored item the actions apply
    to a new item that holds the key only. *)
Definition UpdateItem (input : UpdateItemCommandInput) (t : Table) : UpdateResult :=
  match key_of (Key input) with
  | None => Rejected "ValidationException"
  | Some k =>
      let old := t !! k in
      match apply_set (ExpressionAttributeValues input) (UpdateExpression input)
                      (default (Key input) old) with
      | None => Rejected "ValidationException"
      | Some new =>
          if match ConditionExpression input with
             | Some c => holds (ExpressionAttributeValues input) (default ∅ old) c
             | None => true
             end
          then Accepted k old new
          else Rejected "ConditionalCheckFailedException"
      end
  end.

(** The stream gets an entry for a write that changes the item. *)
Definition stream_of (k : string) (old : option Item) (new : Item) : list StreamRecord :=
  if decide (old = Some new) then []
  else [ {| eventName := match old with Some _ => "MODIFY" | None => "INSERT" end;
            Keys := {[ partitionKey := AV_S k ]};
            OldImage := old;
            NewImage := Some new |} ].

Definition project (attrs : list string) (item : Item) : Item :=
  filter (λ kv, kv.1 ∈ attrs) item.

(** The value of a partition key has between 1 and 2048 bytes. *)
Definition valid_key_value (s : string) : bool :=
  (1 <=? String.length s)%nat && (String.length s <=? 2048)%nat.

(** [GetItem]: [None] stands for the [ValidationException] of a request
    whose key is not valid. The same check comes first in [UpdateItem]; it is
    left out there because no item is ever stored under such a key, so the
    guarded update of this service is rejected at such a key either way. *)
Definition GetItem (input : GetItemCommandInput) (t : Table) : option (option Item) :=
  match key_of (GetKey input) with
  | None => None
  | Some k =>
      if valid_key_value k
      then Some (project (ProjectionExpression input) <$> t !! k)
      else None
  end.

End DynamoDB.

Import DynamoDB.

(** ** The world the handlers run in *)

(** The table with its stream, the clock read by [new Date()] (the [n]-th
    reading is [clock n], already in ISO form) and the lines written to the
    log. *)
Record World := {
  table : Table;
  stream : list StreamRecord;
  clock : nat → string;
  tick : nat;
  console : list string;
}.

(** An [async] computation: it changes the world and returns or throws. *)
Definition Prog (A : Type) : Type := World → Outcome A * World.

#[global] Instance Prog_ret : MRet Prog := λ A a w, (Return a, w).

#[global] Instance Prog_bind : MBind Prog := λ A B f m w,
  match m w with
  | (Return a, w') => f a w'
  | (Throw e, w') => (Throw e, w')
  end.

Definition throw {A} (e : Thrown) : Prog A := λ w, (Throw e, w).

(** [try { p } catch (error) { h error }] *)
Definition try_catch {A} (p : Prog A) (h : Thrown → Prog A) : Prog A := λ w,
  match p w with
  | (Return a, w') => (Return a, w')
  | (Throw e, w') => h e w'
  end.

(** [for (const x of l) { body x }] *)
Fixpoint for_of {A} (l : list A) (body : A → Prog unit) : Prog unit :=
  match l with
  | [] => mret tt
  | x :: l' => body x ;; for_of l' body
  end.

(** [console.log(msg, ...)] and the [logger] calls: the message is kept. *)
Definition console_log (msg : string) : Prog unit := λ w,
  (Return tt,
   {| table := table w; stream := stream w; clock := clock w; tick := tick w;
      console := console w ++ [msg] |}).

(** [new Date().toISOString()] *)
Definition new_Date : Prog string := λ w,
  (Return (clock w (tick w)),
   {| table := table w; stream := stream w; clock := clock w; tick := S (tick w);
      console := console w |}).

(** A call that does not touch the world. *)
Definition lift {A} (o : Outcome A) : Prog A := λ w, (o, w).

Record UpdateItemCommandOutput := { httpStatusCode : Z }.

(** [ddbClient.send(new UpdateItemCommand(input))]: an accepted update is
    committed to the table and shows on its stream; a rejected one throws the
    service's exception and leaves the table as it was. *)
Definition send_UpdateItemCommand (input : UpdateItemCommandInput)
  : Prog UpdateItemCommandOutput := λ w,
  match UpdateItem input (table w) with
  | Accepted k old new =>
      (Return {| httpStatusCode := 200 |},
       {| table := <[k := new]> (table w);
          stream := stream w ++ stream_of k old new;
          clock := clock w; tick := tick w; console := console w |})
  | Rejected name => (Throw (ServiceException name), w)
  end.

(** [{ S: v }] is an attribute value when [v] is a string. *)
Definition S_value (v : option json) : option AttributeValue :=
  match v with
  | Some (JStr s) => Some (AV_S s)
  | _ => None
  end.

(** ** The command processor: [contractEventHandler.ts] *)

Module ContractEventHandlerFunction.

(** Modelled from the spec: [ContractStatusEnum] is declared in [./Contract],
    which is not among the sources; the data model gives its two values, and
    the pipe's filter spells them the same way. *)
Inductive ContractStatusEnum := DRAFT | APPROVED.

Definition status_string (s : ContractStatusEnum) : string :=
  match s with
  | DRAFT => "DRAFT"
  | APPROVED => "APPROVED"
  end.

(** [ContractDBType] is declared in [./Contract] too; these are the fields
    [updateContract] fills in. The payload is cast to this type unchecked, so
    the two identifiers are whatever it holds under these names. *)
Record ContractDBType := {
  contract_id : option json;
  property_id : option json;
  contract_status : ContractStatusEnum;
  contract_last_modified_on : string;
}.

Record SQSMessageAttribute := { stringValue : option string }.

Record SQSRecord := {
  body : string;
  messageAttributes : gmap string SQSMessageAttribute;
}.

Record SQSEvent := { Records : list SQSRecord }.

(** [createContract] *)
Definition createContract (contract : json) : Prog unit :=
  throw (Error "Not implemented").

(** [ddbUpdateCommandInput] of [updateContract]. The update expression is
    ["set contract_status = :t, modified_date = :m"] and the condition
    ["attribute_exists(property_id) AND contract_status = :DRAFT"]. *)
Definition ddbUpdateCommandInput (key : AttributeValue) (dbEntry : ContractDBType)
  : UpdateItemCommandInput :=
  {| Key := {[ "property_id" := key ]};
     UpdateExpression := [("contract_status", ":t"); ("modified_date", ":m")];
     ConditionExpression :=
       Some (CondAnd (attribute_exists "property_id")
                     (CondEq (Path "contract_status") (Placeholder ":DRAFT")));
     ExpressionAttributeValues :=
       {[ ":t" := AV_S (status_string (contract_status dbEntry));
          ":m" := AV_S (contract_last_modified_on dbEntry);
          ":DRAFT" := AV_S (status_string DRAFT) ]} |}.

(** [updateContract]. A key whose [S] is not a string is not a valid request:
    the send is rejected. *)
Definition updateContract (contract : json) : Prog unit :=
  modifiedDate ← new_Date;
  c_id ← lift (get_member (Some contract) "contract_id");
  p_id ← lift (get_member (Some contract) "property_id");
  let dbEntry := {| contract_id := c_id;
                    property_id := p_id;
                    contract_status := APPROVED;
                    contract_last_modified_on := modifiedDate |} in
  console_log "Record to update";;
  ddbUpdateCommandOutput ←
    match S_value (property_id dbEntry) with
    | Some key => send_UpdateItemCommand (ddbUpdateCommandInput key dbEntry)
    | None => throw (ServiceException "ValidationException")
    end;
  if decide (httpStatusCode ddbUpdateCommandOutput ≠ 200%Z)
  then throw (ContractError (property_id dbEntry) "ContractDBUpdateError"
                            "Response error code: "
                            (httpStatusCode ddbUpdateCommandOutput))
  else console_log "Updated record for contract".

Section Handler.

(** [JSON.parse]: [None] when it throws a [SyntaxError]. *)
Variable JSON_parse : string → option json.

(** [parseRecord] *)
Definition parseRecord (record : SQSRecord) : Prog json :=
  contract ←
    try_catch
      (match JSON_parse (body record) with
       | Some v => mret v
       | None => throw (SyntaxError "Unexpected token")
       end)
      (λ error,
         console_log "Error parsing SQS Record";;
         throw (Error "Error parsing SQS Record"));
  console_log "Returning contract";;
  mret contract.

(** [sqsRecord.messageAttributes.HttpMethod.stringValue] *)
Definition HttpMethod (sqsRecord : SQSRecord) : Prog (option string) :=
  match messageAttributes sqsRecord !! "HttpMethod" with
  | Some a => mret (stringValue a)
  | None => throw (TypeError "Cannot read properties of undefined (reading 'stringValue')")
  end.

(** The [switch] on the method. The POST branch holds no call: its [try]
    block is empty but for the comment that the write is to be added. *)
Definition switch (method : option string) (contract : json) : Prog unit :=
  if decide (method = Some "POST") then
    console_log "Creating a contract";;
    try_catch
      (mret tt)
      (λ error, console_log "Error during DDB PUT";; throw error)
  else if decide (method = Some "PUT") then
    console_log "Updating a contract";;
    try_catch
      (updateContract contract)
      (λ error, console_log "Error during DDB UPDATE";; throw error)
  else
    console_log "Error request not supported".

(** The body of the loop of [handler], for one record. *)
Definition handle_record (sqsRecord : SQSRecord) : Prog unit :=
  contract ← parseRecord sqsRecord;
  method ← HttpMethod sqsRecord;
  switch method contract.

(** [handler] *)
Definition handler (event : SQSEvent) : Prog unit :=
  for_of (Records event) handle_record.

End Handler.

End ContractEventHandlerFunction.

(** ** The command processor with Powertools *)

(** [contractEventHandler.ts] once the Powertools utilities are in: the same
    class, logging through [logger], counting the accepted updates with
    [metrics], and with its [handler] wrapped by three decorators. The calls
    of [tracer] annotate the trace segment of the invocation and are left
    out. *)
Module Powertools.

Import ContractEventHandlerFunction.

(** The execution environment of the function: the world, the metrics stored
    by [metrics] and not yet flushed, the flushed ones (each flush prints one
    blob of metrics on the standard output), and whether [metrics] has yet to
    see its first invocation. *)
Record Lambda := {
  world : World;
  storedMetrics : list (string * Z);
  emitted : list (list (string * Z));
  coldStart : bool;
}.

Definition Task (A : Type) : Type := Lambda → Outcome A * Lambda.

#[global] Instance Task_ret : MRet Task := λ A a l, (Return a, l).

#[global] Instance Task_bind : MBind Task := λ A B f m l,
  match m l with
  | (Return a, l') => f a l'
  | (Throw e, l') => (Throw e, l')
  end.

(** A computation on the world, run in the environment. *)
Definition in_world {A} (p : Prog A) : Task A := λ l,
  match p (world l) with
  | (o, w) =>
      (o, {| world := w; storedMetrics := storedMetrics l; emitted := emitted l;
             coldStart := coldStart l |})
  end.

(** [try { p } catch (error) { h error }] *)
Definition try_catch {A} (p : Task A) (h : Thrown → Task A) : Task A := λ l,
  match p l with
  | (Return a, l') => (Return a, l')
  | (Throw e, l') => h e l'
  end.

(** [try { p } finally { f }]: what [f] throws replaces the outcome of [p]. *)
Definition try_finally {A} (p : Task A) (f : Task unit) : Task A := λ l,
  match p l with
  | (o, l') =>
      match f l' with
      | (Return _, l'') => (o, l'')
      | (Throw e, l'') => (Throw e, l'')
      end
  end.

(** [for (const x of l) { body x }] *)
Fixpoint for_of {A} (l : list A) (body : A → Task unit) : Task unit :=
  match l with
  | [] => mret tt
  | x :: l' => body x ;; for_of l' body
  end.

(** [logger.info(msg, ...)] and [logger.error(msg, ...)]: the message is
    kept, as for [console.log]. *)
Definition logger_info (msg : string) : Task unit := in_world (console_log msg).

Definition logger_error (msg : string) : Task unit := in_world (console_log msg).

(** [metrics.addMetric(name, unit, value)]: the metric is stored. The library
    also flushes the store when it holds a hundred names or a hundred values
    of one name, which no invocation of fewer than a hundred records
    reaches; the properties of the decorated handler are stated for such
    invocations. *)
Definition metrics_addMetric (name : string) (value : Z) : Task unit := λ l,
  (Return tt,
   {| world := world l; storedMetrics := storedMetrics l ++ [(name, value)];
      emitted := emitted l; coldStart := coldStart l |}).

(** [metrics.publishStoredMetrics()]: serialising an empty store throws when
    the option [throwOnEmptyMetrics] is set; otherwise the store is printed
    and cleared. *)
Definition metrics_publishStoredMetrics (shouldThrowOnEmptyMetrics : bool)
  : Task unit := λ l,
  if bool_decide (storedMetrics l = []) && shouldThrowOnEmptyMetrics
  then (Throw (RangeError "The number of metrics recorded must be higher than zero"), l)
  else (Return tt,
        {| world := world l; storedMetrics := [];
           emitted := emitted l ++ [storedMetrics l]; coldStart := coldStart l |}).

(** [metrics.captureColdStartMetric()]: the first invocation of an environment
    prints the single metric [ColdStart] at once; it is never stored. *)
Definition metrics_captureColdStartMetric : Task unit := λ l,
  if coldStart l
  then (Return tt,
        {| world := world l; storedMetrics := storedMetrics l;
           emitted := emitted l ++ [[("ColdStart", 1%Z)]]; coldStart := false |})
  else (Return tt, l).

Record ExtraOptions := {
  captureColdStartMetric : bool;
  throwOnEmptyMetrics : bool;
}.

(** The decorator [@metrics.logMetrics(options)]: the stored metrics are
    published in a [finally] block around the decorated method. *)
Definition metrics_logMetrics {E} (options : ExtraOptions)
    (originalMethod : E → Task unit) (event : E) : Task unit :=
  (if captureColdStartMetric options then metrics_captureColdStartMetric else mret tt);;
  try_finally (originalMethod event)
              (metrics_publishStoredMetrics (throwOnEmptyMetrics options)).

(** The decorator [@logger.injectLambdaContext({ logEvent })]: the event is
    logged before the decorated method runs. *)
Definition logger_injectLambdaContext {E} (logEvent : bool)
    (originalMethod : E → Task unit) (event : E) : Task unit :=
  (if logEvent then logger_info "Lambda invocation event" else mret tt);;
  originalMethod event.

(** The decorator [@tracer.captureLambdaHandler()]: an error of the decorated
    method is added to the segment and thrown again. *)
Definition tracer_captureLambdaHandler {E}
    (originalMethod : E → Task unit) (event : E) : Task unit :=
  try_catch (originalMethod event) (λ error, in_world (throw error)).

(** [updateContract]: as without Powertools, and an accepted update is
    counted. *)
Definition updateContract (contract : json) : Task unit :=
  modifiedDate ← in_world new_Date;
  c_id ← in_world (lift (get_member (Some contract) "contract_id"));
  p_id ← in_world (lift (get_member (Some contract) "property_id"));
  let dbEntry := {| contract_id := c_id;
                    property_id := p_id;
                    contract_status := APPROVED;
                    contract_last_modified_on := modifiedDate |} in
  logger_info "Record to update";;
  ddbUpdateCommandOutput ←
    match S_value (property_id dbEntry) with
    | Some key => in_world (send_UpdateItemCommand (ddbUpdateCommandInput key dbEntry))
    | None => in_world (throw (ServiceException "ValidationException"))
    end;
  if decide (httpStatusCode ddbUpdateCommandOutput ≠ 200%Z)
  then in_world (throw (ContractError (property_id dbEntry) "ContractDBUpdateError"
                                      "Response error code: "
                                      (httpStatusCode ddbUpdateCommandOutput)))
  else (logger_info "Updated record for contract";;
        metrics_addMetric "ContractUpdated" 1).

Section Handler.

(** [JSON.parse]: [None] when it throws a [SyntaxError]. *)
Variable JSON_parse : string → option json.

(** [parseRecord] *)
Definition parseRecord (record : SQSRecord) : Task json :=
  contract ←
    try_catch
      (match JSON_parse (body record) with
       | Some v => mret v
       | None => in_world (throw (SyntaxError "Unexpected token"))
       end)
      (λ error,
         logger_error "Error parsing SQS Record";;
         in_world (throw (Error "Error parsing SQS Record")));
  logger_info "Returning contract";;
  mret contract.

(** The [switch] on the method. The POST branch holds no write. *)
Definition switch (method : option string) (contract : json) : Task unit :=
  if decide (method = Some "POST") then
    logger_info "Creating a contract";;
    try_catch
      (mret tt)
      (λ error, logger_error "Error during DDB PUT";; in_world (throw error))
  else if decide (method = Some "PUT") then
    logger_info "Updating a contract";;
    try_catch
      (updateContract contract)
      (λ error, logger_error "Error during DDB UPDATE";; in_world (throw error))
  else
    logger_error "Error request not supported".

(** The body of the loop of [handler], for one record. *)
Definition handle_record (sqsRecord : SQSRecord) : Task unit :=
  contract ← parseRecord sqsRecord;
  method ← in_world (HttpMethod sqsRecord);
  switch method contract.

(** [handler], as written. *)
Definition handler (event : SQSEvent) : Task unit :=
  for_of (Records event) handle_record.

(** [lambdaHandler]: [handler] under its decorators, the lowest applied
    first. *)
Definition lambdaHandler : SQSEvent → Task unit :=
  tracer_captureLambdaHandler
    (metrics_logMetrics {| captureColdStartMetric := true; throwOnEmptyMetrics := true |}
       (logger_injectLambdaContext true handler)).

End Handler.

End Powertools.

(** ** The table stream pipe: [CfnPipe] of the stack *)

(** Batches handed over by an event source: the entries in order, in
    non-empty batches of at most [n]. *)
Definition batching {A} (n : nat) (batches : list (list A)) (entries : list A) : Prop :=
  concat batches = entries ∧ Forall (λ b, 0 < length b ≤ n) batches.

(** An attribute value in the JSON of a stream record. *)
Definition attr_json (a : AttributeValue) : json :=
  match a with
  | AV_S s => JObj {[ "S" := JStr s ]}
  | AV_N n => JObj {[ "N" := JStr n ]}
  | AV_BOOL b => JObj {[ "BOOL" := JBool b ]}
  | AV_NULL => JObj {[ "NULL" := JBool true ]}
  end.

Definition item_json (i : Item) : json := JObj (attr_json <$> i).

Definition with_image (k : string) (image : option Item) (m : gmap string json)
  : gmap string json :=
  match image with
  | Some i => <[k := item_json i]> m
  | None => m
  end.

(** The event a stream record is presented as. *)
Definition record_json (r : StreamRecord) : json :=
  JObj {[ "eventName" := JStr (eventName r);
          "dynamodb" :=
            JObj (with_image "NewImage" (NewImage r)
                    (with_image "OldImage" (OldImage r)
                       {[ "Keys" := item_json (Keys r) ]})) ]}.

(** Event patterns: a field is matched by a list of admitted strings or by a
    pattern for each of its listed fields. *)
#[warnings="-register-all"]
Inductive pattern :=
  | PValues (vs : list string)
  | PFields (fs : list (string * pattern)).

Fixpoint matches (p : pattern) (v : json) : bool :=
  match p with
  | PValues vs =>
      match v with
      | JStr s => bool_decide (s ∈ vs)
      | _ => false
      end
  | PFields fs =>
      forallb (λ kp, match prop v kp.1 with
                     | Some v' => matches kp.2 v'
                     | None => false
                     end) fs
  end.

Record DynamoDbStreamParameters := {
  maximumRetryAttempts : nat;
  deadLetterConfig : option string;
  startingPosition : string;
  onPartialBatchItemFailure : option string;
  batchSize : nat;
}.

Record EventBridgeEventBusParameters := {
  source : string;
  detailType : string;
}.

(** The pipe's properties. Each value of the input template is one
    [<$.path>] placeholder, kept as its path. *)
Record CfnPipeProps := {
  dynamoDbStreamParameters : DynamoDbStreamParameters;
  filters : list pattern;
  eventBridgeEventBusParameters : EventBridgeEventBusParameters;
  inputTemplate : list (string * list string);
}.

(** Modelled from the spec: [UNICORN_CONTRACTS_NAMESPACE] is imported from
    [shared], which is not among the sources; the spec names the source of
    [ContractStatusChanged] events, and [UNICORN_NAMESPACES.CONTRACTS] of the
    shared index has the same value. *)
Definition UNICORN_CONTRACTS_NAMESPACE : string := "unicorn.contracts".

(** The queue [pipeDLQ], by its name. *)
Definition pipeDLQ : string := "ContractsTableStreamToEventPipeDLQ".

(** [ContractsTableStreamToEventPipe] *)
Definition pipe : CfnPipeProps := {|
  dynamoDbStreamParameters := {|
    maximumRetryAttempts := 3;
    deadLetterConfig := Some pipeDLQ;
    startingPosition := "LATEST";
    onPartialBatchItemFailure := Some "AUTOMATIC_BISECT";
    batchSize := 1;
  |};
  filters := [
    PFields [
      ("eventName", PValues ["INSERT"; "MODIFY"]);
      ("dynamodb",
       PFields [("NewImage",
                 PFields [("contract_status",
                           PFields [("S", PValues ["DRAFT"; "APPROVED"])])])])
    ]
  ];
  eventBridgeEventBusParameters := {|
    source := UNICORN_CONTRACTS_NAMESPACE;
    detailType := "ContractStatusChanged";
  |};
  inputTemplate := [
    ("property_id", ["dynamodb"; "NewImage"; "property_id"; "S"]);
    ("contract_id", ["dynamodb"; "NewImage"; "contract_id"; "S"]);
    ("contract_status", ["dynamodb"; "NewImage"; "contract_status"; "S"]);
    ("contract_last_modified_on",
     ["dynamodb"; "NewImage"; "contract_last_modified_on"; "S"])
  ];
|}.

(** An event put on the bus; a field of the detail holds what its path
    resolved to. *)
Record BusEvent := {
  Source : string;
  DetailType : string;
  Detail : list (string * option json);
}.

(** An entry is admitted when one of the filters matches it. *)
Definition admitted (p : CfnPipeProps) (r : StreamRecord) : bool :=
  existsb (λ f, matches f (record_json r)) (filters p).

Definition transform (p : CfnPipeProps) (r : StreamRecord) : BusEvent :=
  {| Source := source (eventBridgeEventBusParameters p);
     DetailType := detailType (eventBridgeEventBusParameters p);
     Detail := (λ fp, (fp.1, json_path fp.2 (record_json r))) <$> inputTemplate p |}.

(** The events the pipe makes of one stream entry. *)
Definition canonical_events (p : CfnPipeProps) (r : StreamRecord) : list BusEvent :=
  if admitted p r then [transform p r] else [].

(** ** Delivery by the pipe: retries, bisection, dead letters *)

(** What a run of the pipe leaves behind: the events put on the bus, the
    batches sent to the dead-letter queue, and every batch handed to the
    target, in order. *)
Record PipeRun := {
  published : list BusEvent;
  dead_letter : list (list StreamRecord);
  invocations : list (list StreamRecord);
}.

Definition no_run : PipeRun :=
  {| published := []; dead_letter := []; invocations := [] |}.

Definition run_app (a b : PipeRun) : PipeRun :=
  {| published := published a ++ published b;
     dead_letter := dead_letter a ++ dead_letter b;
     invocations := invocations a ++ invocations b |}.

Definition bisects (s : DynamoDbStreamParameters) : bool :=
  bool_decide (onPartialBatchItemFailure s = Some "AUTOMATIC_BISECT").

Section PipeRuntime.

Variable p : CfnPipeProps.

(** [ok r n]: putting the event of [r] on the bus succeeds when [r] has been
    tried [n] times before. *)
Variable ok : StreamRecord → nat → bool.

(** One batch of admitted entries. A batch that fails is split in two halves
    when bisection is on and it has more than one entry; otherwise it is tried
    again while retries are left, and then goes to the dead-letter queue, if
    there is one. *)
Fixpoint deliver (fuel retries attempt : nat) (batch : list StreamRecord)
  : option PipeRun :=
  match fuel with
  | 0 => None
  | S fuel' =>
      let this := {| published := []; dead_letter := []; invocations := [batch] |} in
      if forallb (λ r, ok r attempt) batch then
        Some (run_app this {| published := transform p <$> batch;
                              dead_letter := []; invocations := [] |})
      else if bisects (dynamoDbStreamParameters p) && (1 <? length batch)%nat then
        let h := length batch `div` 2 in
        a ← deliver fuel' retries (S attempt) (take h batch);
        b ← deliver fuel' retries (S attempt) (drop h batch);
        Some (run_app this (run_app a b))
      else
        match retries with
        | 0 =>
            Some (run_app this
                    {| published := [];
                       dead_letter :=
                         match deadLetterConfig (dynamoDbStreamParameters p) with
                         | Some _ => [batch]
                         | None => []
                         end;
                       invocations := [] |})
        | S retries' =>
            a ← deliver fuel' retries' (S attempt) batch;
            Some (run_app this a)
        end
  end.

(** One polled batch: the filter first, then the delivery of what is left. *)
Definition poll (batch : list StreamRecord) : option PipeRun :=
  let entries := List.filter (admitted p) batch in
  match entries with
  | [] => Some no_run
  | _ =>
      let retries := maximumRetryAttempts (dynamoDbStreamParameters p) in
      deliver (length entries + retries + 1) retries 0 entries
  end.

Fixpoint run (batches : list (list StreamRecord)) : option PipeRun :=
  match batches with
  | [] => Some no_run
  | b :: bs =>
      a ← poll b;
      rest ← run bs;
      Some (run_app a rest)
  end.

End PipeRuntime.

(** ** The queue in front of the command processor *)



(** ** Invocations by the queue *)

Section Invocations.

Variable JSON_parse : string → option json.

(** The function is invoked once for every batch the event source hands
    over. The world an invocation leaves is the one the next finds, and an
    invocation that throws does not stop the later ones. Invocations that
    overlap are taken in the order of the batches. *)
Fixpoint invoke (batches : list (list ContractEventHandlerFunction.SQSRecord))
    (w : World) : list (Outcome unit) * World :=
  match batches with
  | [] => ([], w)
  | b :: bs =>
      match ContractEventHandlerFunction.handler JSON_parse
              {| ContractEventHandlerFunction.Records := b |} w with
      | (o, w1) =>
          match invoke bs w1 with
          | (os, w2) => (o :: os, w2)
          end
      end
  end.

End Invocations.

(** ** The existence check: [contractExistsChecker] *)

Module ContractExistsCheckerFunction.

(** [body] is [JSON.stringify] of a value or of a caught error; the argument
    is kept. *)
Inductive Body :=
  | stringify (v : option json)
  | stringify_error (e : Thrown).

Record StepFunctionsResponse := {
  statusCode : Z;
  body : Body;
}.

(** [new ContractStatusNotFoundException()] sets [statusCode] to 400. *)
Definition new_ContractStatusNotFoundException : Thrown :=
  ContractStatusNotFoundException 400.

(** [unmarshall]: a number is kept as its text. The library turns a number
    beyond the safe integers into a [BigInt], which [JSON.stringify] does not
    take; what the check answers with a stored record is stated for records
    whose attributes are strings, as the type [ContractStatus] declares
    them. *)
Definition unmarshall_value (a : AttributeValue) : json :=
  match a with
  | AV_S s => JStr s
  | AV_N n => JNum n
  | AV_BOOL b => JBool b
  | AV_NULL => JNull
  end.

Definition unmarshall (i : Item) : json := JObj (unmarshall_value <$> i).

(** [ddbClient.send(new GetItemCommand(input))] against a table that answers:
    [data.Item]. *)
Definition send_GetItemCommand (t : Table) (input : GetItemCommandInput)
  : Outcome (option Item) :=
  match GetItem input t with
  | Some item => Return item
  | None => Throw (ServiceException "ValidationException")
  end.

Section Handler.

Variable send : GetItemCommandInput → Outcome (option Item).

(** [getContractStatus] *)
Definition getContractStatus (propertyId : option json) : Outcome (option json) :=
  match S_value propertyId with
  | Some key =>
      Item ← send {| GetKey := {[ "property_id" := key ]};
                     ProjectionExpression :=
                       ["contract_id"; "property_id"; "contract_status"] |};
      match Item with
      | None => mret None
      | Some i => mret (Some (unmarshall i))
      end
  | None => Throw (ServiceException "ValidationException")
  end.

(** The [try] block of [handler]: [currentStatus] and [contractExists]. *)
Definition check (event : json) : Outcome (option json * bool) :=
  detail ← get_member (Some event) "Input";
  propertyId ← get_member detail "property_id";
  currentStatus ← getContractStatus propertyId;
  match currentStatus with
  | None => mret (currentStatus, false)
  | Some status =>
      c_id ← get_member currentStatus "contract_id";
      if is_undefined c_id || strict_eq_string c_id ""
      then mret (currentStatus, false)
      else mret (currentStatus, true)
  end.

(** [handler] *)
Definition handler (event : json) : Outcome StepFunctionsResponse :=
  match check event with
  | Throw error => Return {| statusCode := 500; body := stringify_error error |}
  | Return (currentStatus, contractExists) =>
      if negb contractExists then Throw new_ContractStatusNotFoundException
      else Return {| statusCode := 200; body := stringify currentStatus |}
  end.

End Handler.

End ContractExistsCheckerFunction.

(** ** The shared index: event bus names *)

Module Shared.

Inductive UNICORN_NAMESPACES := CONTRACTS | PROPERTIES | WEB.

(** The string an enum member stands for. *)
Definition namespace_value (n : UNICORN_NAMESPACES) : string :=
  match n with
  | CONTRACTS => "unicorn.contracts"
  | PROPERTIES => "unicorn.properties"
  | WEB => "unicorn.web"
  end.

(** [eventBusName]. At run time a stage and a namespace are the strings of
    their enum members; the [default] of the [switch] takes every other
    string. *)
Definition eventBusName (stage namespace : string) : Outcome string :=
  if decide (namespace = namespace_value CONTRACTS) then
    Return ("UnicornContractsBus-" +:+ stage)
  else if decide (namespace = namespace_value PROPERTIES) then
    Return ("UnicornPropertiesBus-" +:+ stage)
  else if decide (namespace = namespace_value WEB) then
    Return ("UnicornWebBus-" +:+ stage)
  else
    Throw (Error ("Error generatinig Event Bus Name Unknown namespace: " +:+ namespace)).

End Shared.

(** ** The helpers of the integration tests *)

Module Helper.

Record Output := {
  OutputKey : option string;
  OutputValue : option string;
}.

Record Stack := { Outputs : option (list Output) }.

Record DescribeStacksCommandOutput := { Stacks : option (list Stack) }.

(** [findOutputValue], from the answer of [DescribeStacksCommand]; a rejected
    send is not caught. *)
Definition findOutputValue (send : Outcome DescribeStacksCommandOutput)
    (outputKey : string) : Outcome string :=
  stackResources ← send;
  match Stacks stackResources with
  | None | Some [] =>
      Throw (Error "Could not find stack resources named: uni-prop-local-properties ")
  | Some (stack :: _) =>
      match Outputs stack with
      | None | Some [] =>
          Throw (Error
                   "Could not find stack outputs for stack named: uni-prop-local-properties")
      | Some outputs =>
          let outputValue :=
            List.find (λ output, bool_decide (OutputKey output = Some outputKey)) outputs
            ≫= OutputValue in
          match outputValue with
          | None => Throw (Error ("Could not find stack output named: " +:+ outputKey))
          | Some v => Return v
          end
      end
  end.

Record OutputLogEvent := { message : option string }.

Record GetLogEventsCommandOutput := { events : option (list OutputLogEvent) }.

(** A loop in a generator: what the bodies yield, in order, up to the end or
    to the first throw. *)
Fixpoint for_yield {A} (l : list A) (body : A → list json * Outcome unit)
  : list json * Outcome unit :=
  match l with
  | [] => ([], Return tt)
  | x :: l' =>
      match body x with
      | (ys, Return _) =>
          let '(ys', o) := for_yield l' body in ((ys ++ ys')%list, o)
      | (ys, Throw e) => (ys, Throw e)
      end
  end.

Section Logs.

Variable JSON_parse : string → option json.

(** [event.message || "{}"] *)
Definition message_text (event : OutputLogEvent) : string :=
  match message event with
  | None => "{}"
  | Some m => if decide (m = "") then "{}" else m
  end.

(** [ev.detail?.property_id]: a [TypeError] when [ev] is [null], [undefined]
    when [ev.detail] is [undefined] or [null]. *)
Definition detail_property_id (ev : json) : Outcome (option json) :=
  detail ← get_member (Some ev) "detail";
  match detail with
  | None | Some JNull => Return None
  | Some d => Return (prop d "property_id")
  end.

(** The body of the inner loop, for one log event. *)
Definition inspect (propertyId : string) (event : OutputLogEvent)
  : list json * Outcome unit :=
  match JSON_parse (message_text event) with
  | None => ([], Throw (SyntaxError "Unexpected token"))
  | Some ev =>
      match detail_property_id ev with
      | Throw e => ([], Throw e)
      | Return p => if strict_eq_string p propertyId then ([ev], Return tt)
                    else ([], Return tt)
      end
  end.

(** The loops of [getCloudWatchLogsValues] over [responses], the answers to
    the [GetLogEventsCommand]s it has sent. *)
Definition getCloudWatchLogsValues (responses : list GetLogEventsCommandOutput)
    (propertyId : string) : list json * Outcome unit :=
  for_yield responses
    (λ response, for_yield (default [] (events response)) (inspect propertyId)).

End Logs.

End Helper.

(** ** A parser for the payloads of the examples *)

(** The command processor is verified for any [JSON.parse]. The examples run
    it with this parser, which reads flat objects whose members are strings
    without escapes, the shape of the payloads the API forwards, and rejects
    every other text. *)

Definition quote : Ascii.ascii := Ascii.ascii_of_nat 34.

Fixpoint skip_ws (s : string) : string :=
  match s with
  | String c s' => if Ascii.eqb c " "%char then skip_ws s' else s
  | EmptyString => s
  end.

(** The characters up to the closing quote, and what follows it. *)
Fixpoint string_tail (s : string) : option (string * string) :=
  match s with
  | EmptyString => None
  | String c s' =>
      if Ascii.eqb c quote then Some ("", s')
      else if Ascii.eqb c "\"%char then None
      else '(v, rest) ← string_tail s'; Some (String c v, rest)
  end.

Definition string_literal (s : string) : option (string * string) :=
  match skip_ws s with
  | String c s' => if Ascii.eqb c quote then string_tail s' else None
  | EmptyString => None
  end.

Definition expect (c : Ascii.ascii) (s : string) : option string :=
  match skip_ws s with
  | String c' s' => if Ascii.eqb c c' then Some s' else None
  | EmptyString => None
  end.

(** The members after the first one, up to the closing brace. A later member
    of the same name wins. *)
Fixpoint members (fuel : nat) (acc : gmap string json) (s : string) : option json :=
  match fuel with
  | 0 => None
  | S fuel' =>
      match skip_ws s with
      | String "}"%char rest => if bool_decide (skip_ws rest = "") then Some (JObj acc) else None
      | String ","%char rest =>
          '(k, rest) ← string_literal rest;
          rest ← expect ":"%char rest;
          '(v, rest) ← string_literal rest;
          members fuel' (<[k := JStr v]> acc) rest
      | _ => None
      end
  end.

Definition parse_flat (s : string) : option json :=
  rest ← expect "{"%char s;
  match skip_ws rest with
  | String "}"%char rest' => if bool_decide (skip_ws rest' = "") then Some (JObj ∅) else None
  | _ =>
      '(k, rest) ← string_literal rest;
      rest ← expect ":"%char rest;
      '(v, rest) ← string_literal rest;
      members (String.length rest) {[ k := JStr v ]} rest
  end.

(** The text of a flat object. *)
Definition quoted (s : string) : string :=
  String quote s +:+ String quote "".

Fixpoint members_text (l : list (string * string)) : string :=
  match l with
  | [] => ""
  | [(k, v)] => quoted k +:+ ":" +:+ quoted v
  | (k, v) :: l' => quoted k +:+ ":" +:+ quoted v +:+ "," +:+ members_text l'
  end.

Definition object_text (l : list (string * string)) : string :=
  "{" +:+ members_text l +:+ "}".

(** ** Notions of the specification *)

(** The item an accepted update leaves: the two [SET] actions applied. *)
Definition approved_at (now : string) (item : Item) : Item :=
  <["modified_date" := AV_S now]> (<["contract_status" := AV_S "APPROVED"]> item).

(** A draft is stored under the [property_id] of the command. *)
Definition draft_stored (t : Table) (contract : json) : Prop :=
  ∃ pid item,
    prop contract "property_id" = Some (JStr pid)
    ∧ t !! pid = Some item
    ∧ item !! "contract_status" = Some (AV_S "DRAFT").

(** The world after an accepted update of [item] under [pid]. *)
Definition after_update (pid : string) (item : Item) (w : World) : World :=
  {| table := <[pid := approved_at (clock w (tick w)) item]> (table w);
     stream := stream w ++ stream_of pid (Some item) (approved_at (clock w (tick w)) item);
     clock := clock w;
     tick := S (tick w);
     console := console w ++ ["Record to update"; "Updated record for contract"] |}.

(** [w] with more lines in the log. *)
Definition logged (msgs : list string) (w : World) : World :=
  {| table := table w; stream := stream w; clock := clock w; tick := tick w;
     console := console w ++ msgs |}.

(** The after-image of an entry has a monitored status. *)
Definition monitored (r : StreamRecord) : Prop :=
  ∃ img s,
    NewImage r = Some img
    ∧ img !! "contract_status" = Some (AV_S s)
    ∧ s ∈ ["DRAFT"; "APPROVED"].

(** The string stored under attribute [a], as the event shows it. *)
Definition string_attribute (img : Item) (a : string) : option json :=
  match img !! a with
  | Some (AV_S s) => Some (JStr s)
  | _ => None
  end.

(** The detail the input template makes of an after-image. *)
Definition detail_of (img : Item) : list (string * option json) :=
  [("property_id", string_attribute img "property_id");
   ("contract_id", string_attribute img "contract_id");
   ("contract_status", string_attribute img "contract_status");
   ("contract_last_modified_on", string_attribute img "contract_last_modified_on")].

(** The only change between two states of the table is the approval of
    drafts. *)
Definition approvals_only (t t' : Table) : Prop :=
  ∀ k, t' !! k = t !! k
       ∨ ∃ item now,
           t !! k = Some item
           ∧ item !! "contract_status" = Some (AV_S "DRAFT")
           ∧ t' !! k = Some (approved_at now item).

(** A stream entry that records the approval of a draft and that the pipe
    turns into exactly one status-change event. *)
Definition approval_entry (r : StreamRecord) : Prop :=
  eventName r = "MODIFY"
  ∧ (∃ old, OldImage r = Some old ∧ old !! "contract_status" = Some (AV_S "DRAFT"))
  ∧ (∃ new, NewImage r = Some new
            ∧ new !! "contract_status" = Some (AV_S "APPROVED")
            ∧ canonical_events pipe r =
                [ {| Source := "unicorn.contracts";
                     DetailType := "ContractStatusChanged";
                     Detail := detail_of new |} ]).

(** The event [ev] of the log is about the property [propertyId]. *)
Definition concerns (propertyId : string) (ev : json) : bool :=
  strict_eq_string (json_path ["detail"; "property_id"] ev) propertyId.

(** All the log events of the answers, in the order of the loops. *)
Definition log_events (responses : list Helper.GetLogEventsCommandOutput)
  : list Helper.OutputLogEvent :=
  concat ((λ response, default [] (Helper.events response)) <$> responses).

(** [w] with the log [c]. *)
Definition with_console (c : list string) (w : World) : World :=
  {| table := table w; stream := stream w; clock := clock w; tick := tick w;
     console := c |}.

(** [p] does not read the log: what it returns, what it appends to the log
    and the rest of the world it leaves are the same whatever the log holds. *)
Definition console_blind {R} (p : World → R * World) : Prop :=
  ∀ w, ∃ r u msgs, ∀ c, p (with_console c w) = (r, with_console (c ++ msgs)%list u).

(** The environment [l] in the world [w], with [n] more accepted updates
    counted. *)
Definition counted (n : nat) (l : Powertools.Lambda) (w : World) : Powertools.Lambda :=
  {| Powertools.world := w;
     Powertools.storedMetrics :=
       (Powertools.storedMetrics l ++ replicate n ("ContractUpdated", 1%Z))%list;
     Powertools.emitted := Powertools.emitted l;
     Powertools.coldStart := Powertools.coldStart l |}.

(** [t] does to the world what [p] does, and stores one metric for every
    entry [p] adds to the stream. *)
Definition counts {A} (t : Powertools.Task A) (p : Prog A) : Prop :=
  ∀ l, ∃ new,
    stream (p (Powertools.world l)).2 = (stream (Powertools.world l) ++ new)%list
    ∧ t l = ((p (Powertools.world l)).1,
             counted (length new) l (p (Powertools.world l)).2).

(** The environment [l] with the log [c]. *)
Definition relog (c : list string) (l : Powertools.Lambda) : Powertools.Lambda :=
  {| Powertools.world := with_console c (Powertools.world l);
     Powertools.storedMetrics := Powertools.storedMetrics l;
     Powertools.emitted := Powertools.emitted l;
     Powertools.coldStart := Powertools.coldStart l |}.

(** The environment in which the decorated [handler] starts: the cold start
    has been reported and the event logged. *)
Definition started (l : Powertools.Lambda) : Powertools.Lambda :=
  {| Powertools.world := logged ["Lambda invocation event"] (Powertools.world l);
     Powertools.storedMetrics := Powertools.storedMetrics l;
     Powertools.emitted :=
       (Powertools.emitted l
        ++ if Powertools.coldStart l then [[("ColdStart", 1%Z)]] else [])%list;
     Powertools.coldStart := false |}.

(** The [finally] block of [logMetrics] after the outcome [r]. *)
Definition published_after (r : Outcome unit * Powertools.Lambda)
  : Outcome unit * Powertools.Lambda :=
  match Powertools.metrics_publishStoredMetrics true r.2 with
  | (Return _, l) => (r.1, l)
  | (Throw e, l) => (Throw e, l)
  end.

(** The item is a [ContractStatus] as the type declares it: [contract_id],
    [property_id] and [contract_status], where present, are strings. *)
Definition is_ContractStatus (item : Item) : Prop :=
  ∀ a, a ∈ ["contract_id"; "property_id"; "contract_status"] →
       item !! a = None ∨ ∃ s, item !! a = Some (AV_S s).

(** What the existence check reads of an item. *)
Definition projected (item : Item) : Item :=
  project ["contract_id"; "property_id"; "contract_status"] item.

(** The item holds a [contract_id] that is not the empty string. *)
Definition has_contract_id (item : Item) : bool :=
  match item !! "contract_id" with
  | None => false
  | Some (AV_S s) => negb (bool_decide (s = ""))
  | Some _ => true
  end.

(** The request of the workflow for [pid]. *)
Definition request (pid : string) : json :=
  JObj {[ "Input" := JObj {[ "property_id" := JStr pid ]} ]}.

(** ** Example data *)

Import ContractEventHandlerFunction.

Definition clock0 (n : nat) : string :=
  match n with
  | 0 => "2024-05-01T10:00:00.000Z"
  | _ => "2024-05-01T10:00:05.000Z"
  end.

Definition world0 (t : Table) : World :=
  {| table := t; stream := []; clock := clock0; tick := 0; console := [] |}.

Definition contract_item (pid cid status modified : string) : Item :=
  {[ "property_id" := AV_S pid;
     "contract_id" := AV_S cid;
     "contract_status" := AV_S status;
     "contract_last_modified_on" := AV_S modified ]}.

Definition p1_draft : Item := contract_item "p1" "c1" "DRAFT" "2024-04-30T09:00:00.000Z".

Definition command (method : string) (members : list (string * string)) : SQSRecord :=
  {| body := object_text members;
     messageAttributes := {[ "HttpMethod" := {| stringValue := Some method |} ]} |}.

Definition malformed (method : string) : SQSRecord :=
  {| body := "property_id=p1";
     messageAttributes := {[ "HttpMethod" := {| stringValue := Some method |} ]} |}.

Definition update_p1 : SQSRecord := command "PUT" [("property_id", "p1")].

Definition create_p1 : SQSRecord :=
  command "POST" [("property_id", "p1"); ("contract_id", "c1")].

Definition delete_p1 : SQSRecord := command "DELETE" [("property_id", "p1")].

Definition p1_approved : Item := approved_at (clock0 0) p1_draft.

(** The stream entry of the approval of [p1]. *)
Definition p1_approval : StreamRecord :=
  {| eventName := "MODIFY";
     Keys := {[ "property_id" := AV_S "p1" ]};
     OldImage := Some p1_draft;
     NewImage := Some p1_approved |}.

(** The stream entry of the creation of [p1]. *)
Definition p1_creation : StreamRecord :=
  {| eventName := "INSERT";
     Keys := {[ "property_id" := AV_S "p1" ]};
     OldImage := None;
     NewImage := Some p1_draft |}.

(** A stream entry whose new status is not a monitored one. *)
Definition p1_cancellation : StreamRecord :=
  {| eventName := "MODIFY";
     Keys := {[ "property_id" := AV_S "p1" ]};
     OldImage := Some p1_draft;
     NewImage := Some (contract_item "p1" "c1" "CANCELLED" "2024-04-30T09:00:00.000Z") |}.

(** A parser that also reads the text [null]. *)
Definition parse_null_or_flat (s : string) : option json :=
  if decide (s = "null") then Some JNull else parse_flat s.

(** A PUT whose payload is [null], and a record without a method. *)
Definition update_null : SQSRecord :=
  {| body := "null";
     messageAttributes := {[ "HttpMethod" := {| stringValue := Some "PUT" |} ]} |}.

Definition no_method : SQSRecord :=
  {| body := object_text [("property_id", "p1")]; messageAttributes := ∅ |}.

(** A parser of two log messages, and the answers that hold them. *)
Definition parse_log (s : string) : option json :=
  if decide (s = "about p1") then
    Some (JObj {[ "detail" := JObj {[ "property_id" := JStr "p1" ]} ]})
  else if decide (s = "about p2") then
    Some (JObj {[ "detail" := JObj {[ "property_id" := JStr "p2" ]} ]})
  else parse_flat s.

Definition log_answers : list Helper.GetLogEventsCommandOutput :=
  [ {| Helper.events := Some [ {| Helper.message := Some "about p2" |};
                              {| Helper.message := Some "about p1" |} ] |};
    {| Helper.events := None |};
    {| Helper.events := Some [ {| Helper.message := None |} ] |} ].

(** A fresh execution environment in the world [w]. *)
Definition cold (w : World) : Powertools.Lambda :=
  {| Powertools.world := w; Powertools.storedMetrics := [];
     Powertools.emitted := []; Powertools.coldStart := true |}.

(** A bus that takes the events of insertions and refuses all others. *)
Definition inserts_only (r : StreamRecord) (n : nat) : bool :=
  bool_decide (eventName r = "INSERT").

(** * Properties *)

Lemma key_of_property_id pid :
  key_of {[ "property_id" := AV_S pid ]} = Some pid.
Proof.
  unfold key_of, partitionKey. rewrite lookup_singleton_eq.
  by rewrite decide_True.
Qed.

Lemma UpdateItem_ddbUpdateCommandInput pid dbEntry (t : Table) :
  UpdateItem (ddbUpdateCommandInput (AV_S pid) dbEntry) t =
    match t !! pid with
    | Some item =>
        if bool_decide (is_Some (item !! "property_id"))
           && bool_decide (item !! "contract_status" = Some (AV_S "DRAFT"))
        then Accepted pid (Some item)
               (<["modified_date" := AV_S (contract_last_modified_on dbEntry)]>
                  (<["contract_status" := AV_S (status_string (contract_status dbEntry))]>
                     item))
        else Rejected "ConditionalCheckFailedException"
    | None => Rejected "ConditionalCheckFailedException"
    end.
Proof.
  unfold UpdateItem, ddbUpdateCommandInput. cbn [Key UpdateExpression ConditionExpression ExpressionAttributeValues].
  rewrite key_of_property_id. cbn [apply_set holds operand].
  set (vals := ({[ ":t" := _; ":m" := _; ":DRAFT" := _ ]} : Item)).
  assert (Ht : vals !! ":t" = Some (AV_S (status_string (contract_status dbEntry))))
    by (subst vals; by simplify_map_eq).
  assert (Hm : vals !! ":m" = Some (AV_S (contract_last_modified_on dbEntry)))
    by (subst vals; by simplify_map_eq).
  assert (Hd : vals !! ":DRAFT" = Some (AV_S "DRAFT"))
    by (subst vals; by simplify_map_eq).
  rewrite Ht, Hm, Hd. clear Ht Hm Hd.
  destruct (t !! pid) as [item|]; cbn [from_option id].
  - destruct (item !! "contract_status") as [x|] eqn:Hs.
    + destruct (bool_decide (is_Some (item !! "property_id"))); cbn [andb]; [|done].
      destruct (decide (x = AV_S "DRAFT")) as [->|Hne].
      * by rewrite !bool_decide_eq_true_2.
      * rewrite !bool_decide_eq_false_2; [done|congruence|done].
    + rewrite andb_false_r.
      by rewrite (bool_decide_eq_false_2 (None = Some _)), andb_false_r.
  - rewrite lookup_empty. by rewrite bool_decide_eq_false_2 by (intros [? ?]; done).
Qed.

Ltac prog_unfold :=
  unfold mbind, mret, Prog_bind, Prog_ret, Outcome_bind, Outcome_ret, lift, throw,
    console_log, new_Date, try_catch, send_UpdateItemCommand in *.

Lemma get_member_not_null v k :
  v ≠ JNull → get_member (Some v) k = Return (prop v k).
Proof. by destruct v. Qed.

Lemma approved_at_changes now (item : Item) :
  item !! "contract_status" = Some (AV_S "DRAFT") →
  Some item ≠ Some (approved_at now item).
Proof.
  intros Hs [= Heq]. rewrite Heq in Hs. unfold approved_at in Hs.
  by simplify_map_eq.
Qed.

Lemma updateContract_cases contract w :
  (∃ pid item,
      prop contract "property_id" = Some (JStr pid)
      ∧ table w !! pid = Some item
      ∧ is_Some (item !! "property_id")
      ∧ item !! "contract_status" = Some (AV_S "DRAFT")
      ∧ updateContract contract w = (Return tt, after_update pid item w))
  ∨ ((¬ ∃ pid item,
         prop contract "property_id" = Some (JStr pid)
         ∧ table w !! pid = Some item
         ∧ is_Some (item !! "property_id")
         ∧ item !! "contract_status" = Some (AV_S "DRAFT"))
     ∧ ∃ e w', updateContract contract w = (Throw e, w')
               ∧ table w' = table w ∧ stream w' = stream w).
Proof.
  assert (contract = JNull ∨ contract ≠ JNull) as [->|Hnull]
    by (destruct contract; (by left) || (by right)).
  { right. split; [by intros (? & ? & ? & _)|].
    eexists _, _. split; [reflexivity|done]. }
  unfold updateContract. prog_unfold.
  rewrite !get_member_not_null by done.
  cbn [table stream clock tick console property_id].
  destruct (prop contract "property_id") as [v|] eqn:Hp; cycle 1.
  { right. split; [by intros (? & ? & ? & _)|].
    eexists _, _. split; [reflexivity|done]. }
  destruct v as [| | |pid| |];
    try (right; split; [by intros (? & ? & ? & _)|];
         eexists _, _; split; [reflexivity|done]).
  cbn [S_value]. rewrite UpdateItem_ddbUpdateCommandInput.
  cbn [table stream clock tick console contract_status contract_last_modified_on
       status_string].
  destruct (table w !! pid) as [item|] eqn:Ht; cycle 1.
  { right. split; [intros (? & ? & [= <-] & ? & _); congruence|].
    eexists _, _. split; [reflexivity|done]. }
  destruct (bool_decide (is_Some (item !! "property_id"))) eqn:Hk;
    [apply bool_decide_eq_true in Hk|apply bool_decide_eq_false in Hk]; cycle 1.
  { right. split; [intros (? & ? & [= <-] & ? & ? & _); congruence|].
    eexists _, _. split; [reflexivity|done]. }
  destruct (bool_decide (item !! "contract_status" = Some (AV_S "DRAFT"))) eqn:Hs;
    [apply bool_decide_eq_true in Hs|apply bool_decide_eq_false in Hs]; cycle 1.
  { right. split; [intros (? & ? & [= <-] & ? & ? & ?); congruence|].
    eexists _, _. split; [reflexivity|done]. }
  left. exists pid, item. do 4 (split; [done|]).
  cbn. case_decide; [done|].
  cbn. unfold after_update, approved_at. by rewrite <- app_assoc.
Qed.

Lemma updateContract_accepted contract w w' :
  updateContract contract w = (Return tt, w') →
  ∃ pid item,
    prop contract "property_id" = Some (JStr pid)
    ∧ table w !! pid = Some item
    ∧ item !! "contract_status" = Some (AV_S "DRAFT")
    ∧ w' = after_update pid item w.
Proof.
  intros Hrun.
  destruct (updateContract_cases contract w)
    as [(pid & item & Hp & Ht & _ & Hs & Heq)|(_ & e & w'' & Heq & _)].
  - exists pid, item. rewrite Heq in Hrun. by injection Hrun as <-.
  - rewrite Heq in Hrun. discriminate.
Qed.

Lemma updateContract_rejected contract w e w' :
  updateContract contract w = (Throw e, w') →
  table w' = table w ∧ stream w' = stream w.
Proof.
  intros Hrun.
  destruct (updateContract_cases contract w)
    as [(pid & item & _ & _ & _ & _ & Heq)|(_ & e' & w'' & Heq & Ht & Hs)].
  - rewrite Heq in Hrun. discriminate.
  - rewrite Heq in Hrun. by injection Hrun as <- <-.
Qed.

(** C1: a write that sets the status to APPROVED is accepted only when a
    record is stored under the command's [property_id] with status DRAFT. In
    every other state, the absent record included, the update is rejected with
    an exception, and a rejected update leaves the table and its stream as
    they were: no record is created or changed. *)
Theorem approval_requires_stored_draft contract w :
  ((updateContract contract w).1 = Return tt → draft_stored (table w) contract)
  ∧ (¬ draft_stored (table w) contract → ∃ e, (updateContract contract w).1 = Throw e)
  ∧ (∀ e, (updateContract contract w).1 = Throw e →
          table (updateContract contract w).2 = table w
          ∧ stream (updateContract contract w).2 = stream w).
Proof.
  destruct (updateContract contract w) as [res w'] eqn:Hrun. cbn [fst snd].
  split; [|split].
  - intros ->. apply updateContract_accepted in Hrun as (pid & item & ? & ? & ? & _).
    by exists pid, item.
  - intros Hno. destruct res as [[]|e]; [|by exists e].
    apply updateContract_accepted in Hrun as (pid & item & ? & ? & ? & _).
    destruct Hno. by exists pid, item.
  - intros e ->. by apply updateContract_rejected in Hrun.
Qed.

(** An update for a property without a record is rejected by the condition:
    no record is created and the stream stays empty. *)
Example update_without_record_is_rejected :
  handler parse_flat {| Records := [command "PUT" [("property_id", "p2")]] |}
    (world0 ∅)
  = (Throw (ServiceException "ConditionalCheckFailedException"),
     logged ["Returning contract"; "Updating a contract"; "Record to update";
             "Error during DDB UPDATE"]
       {| table := ∅; stream := []; clock := clock0; tick := 1; console := [] |}).
Proof. vm_compute. reflexivity. Qed.

(** C10: an accepted update writes [contract_status] and [modified_date] of
    the stored item and nothing else: every other attribute of the item, so
    [property_id], [contract_id] and [contract_last_modified_on], and every
    other item of the table is as before. The timestamp of the update is
    stored under [modified_date]. *)
Theorem update_writes_status_and_modified_date contract w w' :
  updateContract contract w = (Return tt, w') →
  ∃ pid item item',
    prop contract "property_id" = Some (JStr pid)
    ∧ table w !! pid = Some item
    ∧ table w' !! pid = Some item'
    ∧ (∀ k, k ≠ pid → table w' !! k = table w !! k)
    ∧ item' !! "contract_status" = Some (AV_S "APPROVED")
    ∧ item' !! "modified_date" = Some (AV_S (clock w (tick w)))
    ∧ (∀ a, a ≠ "contract_status" → a ≠ "modified_date" → item' !! a = item !! a)
    ∧ item' !! "property_id" = item !! "property_id"
    ∧ item' !! "contract_id" = item !! "contract_id"
    ∧ item' !! "contract_last_modified_on" = item !! "contract_last_modified_on".
Proof.
  intros Hrun.
  apply updateContract_accepted in Hrun as (pid & item & Hp & Ht & Hs & ->).
  exists pid, item, (approved_at (clock w (tick w)) item).
  unfold after_update, approved_at. cbn [table].
  split; [done|]. split; [done|].
  split; [by rewrite lookup_insert_eq|].
  split; [by intros k Hk; rewrite lookup_insert_ne|].
  split; [by simplify_map_eq|].
  split; [by simplify_map_eq|].
  split; [by intros a H1 H2; simplify_map_eq|].
  by simplify_map_eq.
Qed.

Lemma update_writes_status_and_modified_date_witness :
  ∃ pid item item',
    prop (JObj {[ "property_id" := JStr "p1" ]}) "property_id" = Some (JStr pid)
    ∧ table (world0 {[ "p1" := p1_draft ]}) !! pid = Some item
    ∧ table (after_update "p1" p1_draft (world0 {[ "p1" := p1_draft ]})) !! pid
      = Some item'
    ∧ (∀ k, k ≠ pid →
            table (after_update "p1" p1_draft (world0 {[ "p1" := p1_draft ]})) !! k
            = table (world0 {[ "p1" := p1_draft ]}) !! k)
    ∧ item' !! "contract_status" = Some (AV_S "APPROVED")
    ∧ item' !! "modified_date" = Some (AV_S (clock0 0))
    ∧ (∀ a, a ≠ "contract_status" → a ≠ "modified_date" → item' !! a = item !! a)
    ∧ item' !! "property_id" = item !! "property_id"
    ∧ item' !! "contract_id" = item !! "contract_id"
    ∧ item' !! "contract_last_modified_on" = item !! "contract_last_modified_on".
Proof.
  apply (update_writes_status_and_modified_date
           (JObj {[ "property_id" := JStr "p1" ]})
           (world0 {[ "p1" := p1_draft ]})
           (after_update "p1" p1_draft (world0 {[ "p1" := p1_draft ]}))).
  vm_compute. reflexivity.
Defined.

(** X5: an update of a stored draft that carries its key is accepted: the status
    becomes APPROVED, and the same update sent again is rejected by the
    condition and leaves the status APPROVED. *)
Lemma update_of_draft_then_again contract pid item w :
  prop contract "property_id" = Some (JStr pid) →
  table w !! pid = Some item →
  is_Some (item !! "property_id") →
  item !! "contract_status" = Some (AV_S "DRAFT") →
  updateContract contract w = (Return tt, after_update pid item w)
  ∧ ∃ e w'', updateContract contract (after_update pid item w) = (Throw e, w'')
             ∧ table w'' = table (after_update pid item w)
             ∧ table w'' !! pid ≫= (.!! "contract_status") = Some (AV_S "APPROVED").
Proof.
  intros Hp Ht Hk Hs.
  assert (Hfirst : updateContract contract w = (Return tt, after_update pid item w)).
  { destruct (updateContract_cases contract w)
      as [(pid' & item' & Hp' & Ht' & _ & _ & Heq)|(Hno & _)].
    - rewrite Hp in Hp'. injection Hp' as <-. rewrite Ht in Ht'. by injection Ht' as <-.
    - destruct Hno. by exists pid, item. }
  split; [done|].
  destruct (updateContract_cases contract (after_update pid item w))
    as [(pid' & item' & Hp' & Ht' & _ & Hs' & _)|(_ & e & w'' & Heq & Htab & _)].
  - rewrite Hp in Hp'. injection Hp' as <-.
    unfold after_update, approved_at in Ht'. cbn [table] in Ht'.
    rewrite lookup_insert_eq in Ht'. injection Ht' as <-. by simplify_map_eq.
  - exists e, w''. split; [done|]. split; [done|].
    rewrite Htab. unfold after_update, approved_at. cbn [table].
    rewrite lookup_insert_eq. cbn. by simplify_map_eq.
Qed.

(** C2, at the failing input: the update of the stored draft [p1] is accepted
    and sets the status to APPROVED, but the timestamp goes to
    [modified_date]; the stored [contract_last_modified_on] keeps its old
    value, and so does the event the pipe makes of the change. *)
Example update_does_not_advance_contract_last_modified_on :
  let w := world0 {[ "p1" := p1_draft ]} in
  let run := handler parse_flat {| Records := [update_p1] |} w in
  run.1 = Return tt
  ∧ table run.2 !! "p1" ≫= (.!! "contract_status") = Some (AV_S "APPROVED")
  ∧ table w !! "p1" ≫= (.!! "contract_last_modified_on")
    = Some (AV_S "2024-04-30T09:00:00.000Z")
  ∧ table run.2 !! "p1" ≫= (.!! "contract_last_modified_on")
    = Some (AV_S "2024-04-30T09:00:00.000Z")
  ∧ table run.2 !! "p1" ≫= (.!! "modified_date")
    = Some (AV_S "2024-05-01T10:00:00.000Z")
  ∧ canonical_events pipe <$> stream run.2
    = [[ {| Source := "unicorn.contracts";
            DetailType := "ContractStatusChanged";
            Detail := [("property_id", Some (JStr "p1"));
                       ("contract_id", Some (JStr "c1"));
                       ("contract_status", Some (JStr "APPROVED"));
                       ("contract_last_modified_on",
                        Some (JStr "2024-04-30T09:00:00.000Z"))] |} ]].
Proof. cbv zeta. split_and!; vm_compute; reflexivity. Qed.

(** [createContract] is never called by [handler], and throws when called. *)
Lemma createContract_not_implemented contract w :
  createContract contract w = (Throw (Error "Not implemented"), w).
Proof. reflexivity. Qed.

(** C3, at the failing input: a Create for [p1] on an empty table returns
    without an error and stores nothing; a second Create does the same, with
    no duplicate signalled. *)
Example create_stores_no_record :
  let w := world0 ∅ in
  let once := handler parse_flat {| Records := [create_p1] |} w in
  let twice := handler parse_flat {| Records := [create_p1] |} once.2 in
  once.1 = Return tt
  ∧ table once.2 = ∅ ∧ stream once.2 = []
  ∧ console once.2 = ["Returning contract"; "Creating a contract"]
  ∧ twice.1 = Return tt
  ∧ table twice.2 = ∅ ∧ stream twice.2 = [].
Proof. cbv zeta. split_and!; vm_compute; reflexivity. Qed.

Section HandlerProperties.

Variable JSON_parse : string → option json.

Lemma parseRecord_ok r v w :
  JSON_parse (body r) = Some v →
  parseRecord JSON_parse r w = (Return v, logged ["Returning contract"] w).
Proof. intros Hv. unfold parseRecord. prog_unfold. by rewrite Hv. Qed.

Lemma parseRecord_malformed r w :
  JSON_parse (body r) = None →
  parseRecord JSON_parse r w
  = (Throw (Error "Error parsing SQS Record"), logged ["Error parsing SQS Record"] w).
Proof. intros Hv. unfold parseRecord. prog_unfold. by rewrite Hv. Qed.

Lemma for_of_app {A} (l1 l2 : list A) (f : A → Prog unit) w :
  for_of (l1 ++ l2) f w =
    match for_of l1 f w with
    | (Return _, w') => for_of l2 f w'
    | (Throw e, w') => (Throw e, w')
    end.
Proof.
  revert w. induction l1 as [|x l1 IH]; intros w; [done|].
  cbn [app for_of]. unfold mbind, Prog_bind.
  destruct (f x w) as [[[]|e] w']; [apply IH|done].
Qed.

Lemma handle_record_parsed r v a w :
  JSON_parse (body r) = Some v →
  messageAttributes r !! "HttpMethod" = Some a →
  handle_record JSON_parse r w
  = switch (stringValue a) v (logged ["Returning contract"] w).
Proof.
  intros Hv Ha. unfold handle_record, HttpMethod, mbind, Prog_bind.
  rewrite (parseRecord_ok _ v) by done. by rewrite Ha.
Qed.

(** A Create command never reaches the table: the POST branch of [handler]
    holds no write. *)
Lemma handle_record_POST r a w :
  messageAttributes r !! "HttpMethod" = Some a →
  stringValue a = Some "POST" →
  table (handle_record JSON_parse r w).2 = table w
  ∧ stream (handle_record JSON_parse r w).2 = stream w
  ∧ (is_Some (JSON_parse (body r)) → (handle_record JSON_parse r w).1 = Return tt).
Proof.
  intros Ha Hm.
  destruct (JSON_parse (body r)) as [v|] eqn:Hv.
  - rewrite (handle_record_parsed r v a) by done. rewrite Hm.
    unfold switch. by rewrite decide_True.
  - unfold handle_record, mbind, Prog_bind. rewrite parseRecord_malformed by done.
    cbn. split; [done|]. split; [done|]. by intros [? ?].
Qed.

(** A record whose method is neither POST nor PUT is logged as not supported
    and skipped: [handler] goes on with the next record in a world that
    differs by the two log lines only. *)
Lemma handler_skips_unsupported r rest w v a :
  JSON_parse (body r) = Some v →
  messageAttributes r !! "HttpMethod" = Some a →
  stringValue a ≠ Some "POST" →
  stringValue a ≠ Some "PUT" →
  handler JSON_parse {| Records := r :: rest |} w
  = handler JSON_parse {| Records := rest |}
      (logged ["Returning contract"; "Error request not supported"] w).
Proof.
  intros Hv Ha Hpost Hput. unfold handler. cbn [Records for_of].
  unfold mbind at 1, Prog_bind at 1.
  rewrite (handle_record_parsed r v a) by done.
  unfold switch. rewrite !decide_False by done.
  cbn. unfold logged. cbn. by rewrite <- app_assoc.
Qed.

(** X20: called with several records, [handler] throws the parsing error at
    the first record whose payload does not parse. The records before it have
    been processed, the records after it are not: the outcome does not depend
    on them. *)
Theorem malformed_record_ends_the_batch pre r post w :
  JSON_parse (body r) = None →
  handler JSON_parse {| Records := pre ++ r :: post |} w
  = match handler JSON_parse {| Records := pre |} w with
    | (Return _, w') =>
        (Throw (Error "Error parsing SQS Record"),
         logged ["Error parsing SQS Record"] w')
    | (Throw e, w') => (Throw e, w')
    end.
Proof.
  intros Hv. unfold handler. cbn [Records]. rewrite for_of_app.
  destruct (for_of pre (handle_record JSON_parse) w) as [[[]|e] w']; [|done].
  cbn [for_of]. unfold mbind at 1, Prog_bind at 1.
  unfold handle_record. unfold mbind at 1, Prog_bind at 1.
  by rewrite parseRecord_malformed.
Qed.

Lemma approvals_only_refl t : approvals_only t t.
Proof. intros k. by left. Qed.

Lemma approvals_only_trans t1 t2 t3 :
  approvals_only t1 t2 → approvals_only t2 t3 → approvals_only t1 t3.
Proof.
  intros H12 H23 k.
  destruct (H23 k) as [->|(item & now & Ht & Hs & Ht')]; [apply H12|].
  destruct (H12 k) as [Heq|(item0 & now0 & _ & _ & Ht0)].
  - right. exists item, now. by rewrite <- Heq.
  - rewrite Ht0 in Ht. injection Ht as <-.
    unfold approved_at in Hs. by simplify_map_eq.
Qed.

Lemma updateContract_approvals_only contract w :
  approvals_only (table w) (table (updateContract contract w).2).
Proof.
  destruct (updateContract_cases contract w)
    as [(pid & item & _ & Ht & _ & Hs & ->)|(_ & e & w' & -> & Heq & _)];
    [|cbn [snd]; rewrite Heq; apply approvals_only_refl].
  intros k. unfold after_update. cbn [snd table].
  destruct (decide (k = pid)) as [->|Hne].
  - right. exists item, (clock w (tick w)). by rewrite lookup_insert_eq.
  - left. by rewrite lookup_insert_ne.
Qed.

Lemma switch_approvals_only method contract w :
  approvals_only (table w) (table (switch method contract w).2).
Proof.
  unfold switch. repeat case_decide; try apply approvals_only_refl.
  pose proof (updateContract_approvals_only contract
                (logged ["Updating a contract"] w)) as Hup.
  unfold mbind, Prog_bind, try_catch, console_log, throw. cbn.
  unfold logged in Hup.
  destruct (updateContract contract _) as [[[]|e] w']; exact Hup.
Qed.

Lemma handle_record_approvals_only r w :
  approvals_only (table w) (table (handle_record JSON_parse r w).2).
Proof.
  destruct (JSON_parse (body r)) as [v|] eqn:Hv; cycle 1.
  { unfold handle_record, mbind, Prog_bind. rewrite parseRecord_malformed by done.
    apply approvals_only_refl. }
  destruct (messageAttributes r !! "HttpMethod") as [a|] eqn:Ha.
  - rewrite (handle_record_parsed r v a) by done.
    apply (switch_approvals_only _ _ (logged ["Returning contract"] w)).
  - unfold handle_record, HttpMethod, mbind, Prog_bind.
    rewrite (parseRecord_ok _ v) by done. rewrite Ha.
    apply approvals_only_refl.
Qed.

(** X1: whatever the batch, the handler changes the table by approving drafts,
    and by nothing else: no record is created, none is removed, and a record
    that is not a draft is left alone. *)
Lemma handler_approvals_only event w :
  approvals_only (table w) (table (handler JSON_parse event w).2).
Proof.
  unfold handler. destruct event as [records]. cbn [Records].
  revert w. induction records as [|r records IH]; intros w;
    [apply approvals_only_refl|].
  cbn [for_of]. unfold mbind at 1, Prog_bind at 1.
  pose proof (handle_record_approvals_only r w) as Hr.
  destruct (handle_record JSON_parse r w) as [[[]|e] w']; [|exact Hr].
  eapply approvals_only_trans; [exact Hr|apply IH].
Qed.

End HandlerProperties.

Lemma malformed_record_ends_the_batch_witness :
  handler parse_flat {| Records := [update_p1] ++ malformed "PUT" :: [update_p1] |}
    (world0 {[ "p1" := p1_draft ]})
  = match handler parse_flat {| Records := [update_p1] |}
            (world0 {[ "p1" := p1_draft ]}) with
    | (Return _, w') =>
        (Throw (Error "Error parsing SQS Record"),
         logged ["Error parsing SQS Record"] w')
    | (Throw e, w') => (Throw e, w')
    end.
Proof.
  apply (malformed_record_ends_the_batch parse_flat [update_p1] (malformed "PUT")
           [update_p1] (world0 {[ "p1" := p1_draft ]})).
  vm_compute. reflexivity.
Defined.

(** Called with a malformed record followed by an update of the draft [p1],
    [handler] throws at the first record and the update is not processed:
    [p1] stays a draft, where the update alone approves it. The isolation of
    a malformed record rests on the batch size of the event source. *)
Example malformed_record_stops_its_siblings :
  let w := world0 {[ "p1" := p1_draft ]} in
  let batch := handler parse_flat {| Records := [malformed "PUT"; update_p1] |} w in
  let alone := handler parse_flat {| Records := [update_p1] |} w in
  batch.1 = Throw (Error "Error parsing SQS Record")
  ∧ stream batch.2 = []
  ∧ table batch.2 !! "p1" ≫= (.!! "contract_status") = Some (AV_S "DRAFT")
  ∧ alone.1 = Return tt
  ∧ table alone.2 !! "p1" ≫= (.!! "contract_status") = Some (AV_S "APPROVED").
Proof. cbv zeta. split_and!; vm_compute; reflexivity. Qed.

(** With a batch size of one, every batch is a single entry. *)
Lemma batching_one {A} (batches : list (list A)) (entries : list A) :
  batching 1 batches entries → batches = (λ x, [x]) <$> entries.
Proof.
  intros [<- Hall]. induction Hall as [|b bs [Hpos Hle] _ IH]; [done|].
  destruct b as [|x [|y b]]; cbn in Hpos, Hle; try lia.
  cbn. by rewrite <- IH.
Qed.


(** *** Independence of the log *)

Lemma with_console_console w : with_console (console w) w = w.
Proof. by destruct w. Qed.


Lemma logged_as_with_console msgs w :
  logged msgs w = with_console (console w ++ msgs) w.
Proof. done. Qed.

Lemma blind_ret {A} (a : A) : console_blind (mret a : Prog A).
Proof. intros w. exists (Return a), w, []. intros c. by rewrite app_nil_r. Qed.

Lemma blind_throw {A} e : console_blind (throw e : Prog A).
Proof. intros w. exists (Throw e), w, []. intros c. by rewrite app_nil_r. Qed.

Lemma blind_lift {A} (o : Outcome A) : console_blind (lift o).
Proof. intros w. exists o, w, []. intros c. by rewrite app_nil_r. Qed.

Lemma blind_console_log msg : console_blind (console_log msg).
Proof. intros w. by exists (Return tt), w, [msg]. Qed.

Lemma blind_new_Date : console_blind new_Date.
Proof.
  intros w.
  exists (Return (clock w (tick w))),
    {| table := table w; stream := stream w; clock := clock w; tick := S (tick w);
       console := console w |}, [].
  intros c. unfold new_Date, with_console. cbn. by rewrite app_nil_r.
Qed.

Lemma blind_send input : console_blind (send_UpdateItemCommand input).
Proof.
  intros w. unfold send_UpdateItemCommand. cbn [table with_console].
  destruct (UpdateItem input (table w)) as [name|k old new].
  - exists (Throw (ServiceException name)), w, []. intros c. by rewrite app_nil_r.
  - exists (Return {| httpStatusCode := 200 |}),
      {| table := <[k := new]> (table w); stream := stream w ++ stream_of k old new;
         clock := clock w; tick := tick w; console := console w |}, [].
    intros c. unfold with_console. cbn. by rewrite app_nil_r.
Qed.

Lemma blind_bind {A B} (p : Prog A) (f : A → Prog B) :
  console_blind p → (∀ a, console_blind (f a)) → console_blind (p ≫= f).
Proof.
  intros Hp Hf w. destruct (Hp w) as ([a|e] & u & msgs & H).
  - destruct (Hf a u) as (o & u' & msgs' & H').
    exists o, u', (msgs ++ msgs')%list. intros c.
    unfold mbind, Prog_bind. by rewrite H, H', app_assoc.
  - exists (Throw e), u, msgs. intros c. unfold mbind, Prog_bind. by rewrite H.
Qed.

Lemma blind_try_catch {A} (p : Prog A) (h : Thrown → Prog A) :
  console_blind p → (∀ e, console_blind (h e)) → console_blind (try_catch p h).
Proof.
  intros Hp Hh w. destruct (Hp w) as ([a|e] & u & msgs & H).
  - exists (Return a), u, msgs. intros c. unfold try_catch. by rewrite H.
  - destruct (Hh e u) as (o & u' & msgs' & H').
    exists o, u', (msgs ++ msgs')%list. intros c.
    unfold try_catch. by rewrite H, H', app_assoc.
Qed.

Lemma blind_for_of {A} (l : list A) (body : A → Prog unit) :
  (∀ x, console_blind (body x)) → console_blind (for_of l body).
Proof.
  intros Hbody. induction l as [|x l IH]; cbn [for_of]; [apply blind_ret|].
  apply blind_bind; [apply Hbody|by intros _].
Qed.

Create HintDb blind.
#[local] Hint Resolve blind_ret blind_throw blind_lift blind_console_log blind_new_Date
  blind_send : blind.

Ltac blind :=
  repeat first
    [ apply blind_bind; [|intros ?]
    | apply blind_try_catch; [|intros ?]
    | progress auto with blind
    | case_match
    | case_decide ].

Lemma blind_updateContract contract : console_blind (updateContract contract).
Proof. unfold updateContract. blind. Qed.

Section Blind.

Variable JSON_parse : string → option json.

Lemma blind_handle_record r : console_blind (handle_record JSON_parse r).
Proof.
  unfold handle_record, parseRecord, HttpMethod, switch. blind.
Qed.

Lemma blind_handler event : console_blind (handler JSON_parse event).
Proof. apply blind_for_of, blind_handle_record. Qed.

End Blind.

(** What a computation that does not read the log does with more lines in
    the log. *)
Lemma blind_logged {R} (p : World → R * World) w extra :
  console_blind p →
  ∃ r u msgs,
    p w = (r, with_console (console w ++ msgs)%list u)
    ∧ p (logged extra w) = (r, with_console (console w ++ extra ++ msgs)%list u).
Proof.
  intros Hp. destruct (Hp w) as (r & u & msgs & H). exists r, u, msgs. split.
  - by rewrite <- (with_console_console w) at 1.
  - by rewrite logged_as_with_console, H, app_assoc.
Qed.

(** *** The handler with Powertools against the plain one *)

Lemma counted_0 l : counted 0 l (Powertools.world l) = l.
Proof. destruct l. unfold counted. cbn. by rewrite app_nil_r. Qed.

Lemma counted_counted n m l w w' :
  counted m (counted n l w) w' = counted (n + m) l w'.
Proof. unfold counted. cbn. by rewrite replicate_add, app_assoc. Qed.

Lemma counts_ret {A} (a : A) : counts (mret a) (mret a).
Proof. intros l. exists []. cbn. rewrite app_nil_r. by rewrite counted_0. Qed.

Lemma counts_in_world {A} (p : Prog A) :
  (∀ w, stream (p w).2 = stream w) → counts (Powertools.in_world p) p.
Proof.
  intros Hp l. exists []. rewrite app_nil_r. split; [apply Hp|].
  unfold Powertools.in_world, counted. destruct (p (Powertools.world l)) as [o w].
  cbn. by rewrite app_nil_r.
Qed.

Lemma counts_bind {A B} (t : Powertools.Task A) (tf : A → Powertools.Task B)
    (p : Prog A) (pf : A → Prog B) :
  counts t p → (∀ a, counts (tf a) (pf a)) → counts (t ≫= tf) (p ≫= pf).
Proof.
  intros Ht Hf l. destruct (Ht l) as (new & Hs & Hl).
  unfold mbind, Powertools.Task_bind, Prog_bind. rewrite Hl.
  destruct (p (Powertools.world l)) as [[a|e] w]; cbn [fst snd] in *.
  - destruct (Hf a (counted (length new) l w)) as (new' & Hs' & Hl').
    cbn [Powertools.world counted] in Hs', Hl'. rewrite Hl'.
    exists (new ++ new')%list. rewrite counted_counted, length_app.
    split; [|done]. by rewrite Hs', Hs, app_assoc.
  - by exists new.
Qed.

Lemma counts_try_catch {A} (t : Powertools.Task A) (th : Thrown → Powertools.Task A)
    (p : Prog A) (ph : Thrown → Prog A) :
  counts t p → (∀ e, counts (th e) (ph e)) →
  counts (Powertools.try_catch t th) (try_catch p ph).
Proof.
  intros Ht Hh l. destruct (Ht l) as (new & Hs & Hl).
  unfold Powertools.try_catch, try_catch. rewrite Hl.
  destruct (p (Powertools.world l)) as [[a|e] w]; cbn [fst snd] in *.
  - by exists new.
  - destruct (Hh e (counted (length new) l w)) as (new' & Hs' & Hl').
    cbn [Powertools.world counted] in Hs', Hl'. rewrite Hl'.
    exists (new ++ new')%list. rewrite counted_counted, length_app.
    split; [|done]. by rewrite Hs', Hs, app_assoc.
Qed.

Lemma counts_for_of {A} (l : list A) (tb : A → Powertools.Task unit)
    (pb : A → Prog unit) :
  (∀ x, counts (tb x) (pb x)) → counts (Powertools.for_of l tb) (for_of l pb).
Proof.
  intros Hb. induction l as [|x l IH]; cbn [Powertools.for_of for_of];
    [apply counts_ret|].
  apply counts_bind; [apply Hb|by intros _].
Qed.

Lemma after_update_stream pid item w :
  item !! "contract_status" = Some (AV_S "DRAFT") →
  ∃ entry, stream (after_update pid item w) = (stream w ++ [entry])%list.
Proof.
  intros Hs. eexists. unfold after_update, stream_of. cbn [stream].
  by rewrite decide_False by by apply approved_at_changes.
Qed.

Lemma Powertools_updateContract contract l :
  Powertools.updateContract contract l
  = match updateContract contract (Powertools.world l) with
    | (Return _, w') => (Return tt, counted 1 l w')
    | (Throw e, w') => (Throw e, counted 0 l w')
    end.
Proof.
  assert (contract = JNull ∨ contract ≠ JNull) as [->|Hnull]
    by (destruct contract; (by left) || (by right)).
  { unfold counted. cbn. by rewrite app_nil_r. }
  unfold Powertools.updateContract, updateContract, Powertools.logger_info,
    Powertools.metrics_addMetric, Powertools.in_world.
  unfold mbind, Powertools.Task_bind, Prog_bind, lift, throw, console_log, new_Date,
    send_UpdateItemCommand, counted.
  rewrite !get_member_not_null by done.
  cbn [Powertools.world Powertools.storedMetrics Powertools.emitted
       Powertools.coldStart property_id table stream clock tick console].
  destruct (S_value (prop contract "property_id")) as [key|];
    [|by rewrite app_nil_r].
  cbn [Powertools.world table stream clock tick console].
  destruct (UpdateItem _ _) as [name|k old new]; [by rewrite app_nil_r|].
  cbn [httpStatusCode]. case_decide; [done|].
  cbn [Powertools.world Powertools.storedMetrics Powertools.emitted
       Powertools.coldStart replicate].
  done.
Qed.

Lemma counts_updateContract contract :
  counts (Powertools.updateContract contract) (updateContract contract).
Proof.
  intros l. rewrite Powertools_updateContract.
  destruct (updateContract_cases contract (Powertools.world l))
    as [(pid & item & _ & _ & _ & Hs & ->)|(_ & e & w' & -> & _ & Heq)].
  - destruct (after_update_stream pid item (Powertools.world l) Hs) as [entry He].
    by exists [entry].
  - exists []. by rewrite app_nil_r.
Qed.

Ltac counts :=
  repeat first
    [ apply counts_updateContract
    | apply counts_ret
    | apply counts_in_world; intros ?; unfold HttpMethod; by repeat case_match
    | apply counts_bind; [|intros ?]
    | apply counts_try_catch; [|intros ?]
    | case_match
    | case_decide ].

Section Counts.

Variable JSON_parse : string → option json.

Lemma counts_handle_record r :
  counts (Powertools.handle_record JSON_parse r) (handle_record JSON_parse r).
Proof.
  unfold Powertools.handle_record, handle_record, Powertools.parseRecord, parseRecord,
    Powertools.switch, switch, Powertools.logger_info, Powertools.logger_error.
  counts.
Qed.

Lemma counts_handler event :
  counts (Powertools.handler JSON_parse event) (handler JSON_parse event).
Proof. apply counts_for_of, counts_handle_record. Qed.

End Counts.

Section Decorated.

Variable JSON_parse : string → option json.

Lemma lambdaHandler_unfold event l :
  Powertools.lambdaHandler JSON_parse event l
  = published_after (Powertools.handler JSON_parse event (started l)).
Proof.
  unfold Powertools.lambdaHandler, Powertools.tracer_captureLambdaHandler,
    Powertools.metrics_logMetrics, Powertools.logger_injectLambdaContext,
    Powertools.try_catch, Powertools.try_finally, published_after,
    Powertools.metrics_captureColdStartMetric, Powertools.logger_info,
    Powertools.in_world, throw, console_log, mbind, Powertools.Task_bind.
  cbn [Powertools.captureColdStartMetric Powertools.throwOnEmptyMetrics].
  unfold started.
  destruct l as [w m f []];
    cbn [Powertools.world Powertools.storedMetrics Powertools.emitted
         Powertools.coldStart console table stream clock tick fst snd];
    rewrite ?app_nil_r; unfold logged.
  all: destruct (Powertools.handler JSON_parse event _) as [o l1]; cbn [fst snd];
    destruct (Powertools.metrics_publishStoredMetrics true l1) as [[[]|e] [w2 m2 f2 c2]];
    by destruct o.
Qed.

Lemma published_after_counted o n l w :
  published_after (o, counted n l w)
  = match Powertools.storedMetrics l, n with
    | [], 0 =>
        (Throw (RangeError "The number of metrics recorded must be higher than zero"),
         counted 0 l w)
    | _, _ =>
        (o, {| Powertools.world := w; Powertools.storedMetrics := [];
               Powertools.emitted :=
                 (Powertools.emitted l
                  ++ [Powertools.storedMetrics l
                      ++ replicate n ("ContractUpdated", 1%Z)])%list;
               Powertools.coldStart := Powertools.coldStart l |})
    end.
Proof.
  unfold published_after, Powertools.metrics_publishStoredMetrics, counted.
  cbn [fst snd Powertools.world Powertools.storedMetrics Powertools.emitted
       Powertools.coldStart andb].
  destruct (Powertools.storedMetrics l) as [|x m]; [destruct n|]; cbn; done.
Qed.

(** The decorated handler on an invocation that holds [r] first against the
    same invocation without [r], when the plain handler skips [r] with the
    log lines [extra]. *)
Lemma lambdaHandler_skips r rest extra l :
  (∀ w, handler JSON_parse {| Records := r :: rest |} w
        = handler JSON_parse {| Records := rest |} (logged extra w)) →
  ∃ o k lines,
    Powertools.lambdaHandler JSON_parse {| Records := rest |} l
    = (o, relog (console (Powertools.world l)
                 ++ "Lambda invocation event" :: lines)%list k)
    ∧ Powertools.lambdaHandler JSON_parse {| Records := r :: rest |} l
      = (o, relog (console (Powertools.world l)
                   ++ "Lambda invocation event" :: extra ++ lines)%list k).
Proof.
  intros Hskip. rewrite !lambdaHandler_unfold.
  destruct (counts_handler JSON_parse {| Records := rest |} (started l))
    as (new & Hs & ->).
  destruct (counts_handler JSON_parse {| Records := r :: rest |} (started l))
    as (new' & Hs' & ->).
  rewrite Hskip in Hs' |- *. revert Hs Hs'.
  cbn [Powertools.world started].
  destruct (blind_logged (handler JSON_parse {| Records := rest |})
              (logged ["Lambda invocation event"] (Powertools.world l)) extra
              (blind_handler JSON_parse _)) as (o & u & msgs & -> & ->).
  cbn [fst snd stream with_console logged]. intros Hs Hs'.
  rewrite Hs in Hs'. apply app_inv_head in Hs' as <-.
  rewrite !published_after_counted.
  cbn [started Powertools.storedMetrics Powertools.emitted Powertools.coldStart
       console logged].
  destruct (Powertools.storedMetrics l) as [|x m]; [destruct new as [|y new]|];
    cbn [length];
    eexists _, {| Powertools.world := u |}, msgs; unfold relog, counted;
    cbn [Powertools.world Powertools.storedMetrics Powertools.emitted
         Powertools.coldStart with_console table stream clock tick];
    rewrite <- !app_assoc; cbn [app]; split; reflexivity.
Qed.

End Decorated.

(** *** One record per invocation *)

Section InvocationProperties.

Variable JSON_parse : string → option json.






End InvocationProperties.

(** C7: a record whose payload parses and whose method is neither POST nor
    PUT is logged as not supported and skipped; nothing is written and
    nothing is thrown for it. The plain [handler] goes on with the next
    record in a world that differs by the two log lines only. The decorated
    [lambdaHandler] of the variant with Powertools ends as it does without
    the record, in an invocation of fewer than a hundred records that starts
    with no metric stored: the same outcome, the same table, stream, clock
    and metrics, and a log that holds the two lines more. An invocation of
    such a record alone returns normally from the plain handler, and ends
    with the [RangeError] of [logMetrics] under the decorators. *)
Theorem unsupported_method_is_logged_and_skipped JSON_parse r rest v a :
  JSON_parse (body r) = Some v →
  messageAttributes r !! "HttpMethod" = Some a →
  stringValue a ≠ Some "POST" →
  stringValue a ≠ Some "PUT" →
  (∀ w, handler JSON_parse {| Records := r :: rest |} w
        = handler JSON_parse {| Records := rest |}
            (logged ["Returning contract"; "Error request not supported"] w))
  ∧ (∀ l,
        Powertools.storedMetrics l = [] →
        length (r :: rest) < 100 →
        ∃ o k lines,
          Powertools.lambdaHandler JSON_parse {| Records := rest |} l
          = (o, relog (console (Powertools.world l)
                       ++ "Lambda invocation event" :: lines)%list k)
          ∧ Powertools.lambdaHandler JSON_parse {| Records := r :: rest |} l
            = (o, relog (console (Powertools.world l)
                         ++ "Lambda invocation event" :: "Returning contract"
                            :: "Error request not supported" :: lines)%list k))
  ∧ (∀ w, (handler JSON_parse {| Records := [r] |} w).1 = Return tt)
  ∧ (∀ l,
        Powertools.storedMetrics l = [] →
        (Powertools.lambdaHandler JSON_parse {| Records := [r] |} l).1
        = Throw (RangeError "The number of metrics recorded must be higher than zero")).
Proof.
  intros Hv Ha Hpost Hput.
  assert (Hskip : ∀ rest w,
            handler JSON_parse {| Records := r :: rest |} w
            = handler JSON_parse {| Records := rest |}
                (logged ["Returning contract"; "Error request not supported"] w))
    by (intros rest' w; by apply (handler_skips_unsupported _ _ _ _ v a)).
  split; [exact (Hskip rest)|]. split; [|split].
  - intros l _ _. apply (lambdaHandler_skips JSON_parse r rest _ l (Hskip rest)).
  - intros w. by rewrite Hskip.
  - intros l Hm. rewrite lambdaHandler_unfold.
    destruct (counts_handler JSON_parse {| Records := [r] |} (started l))
      as (new & Hs & ->).
    rewrite Hskip in Hs |- *. cbn [handler Records for_of mret Prog_ret snd stream
                                   logged started Powertools.world] in Hs.
    rewrite <- (app_nil_r (stream (Powertools.world l))) in Hs at 1.
    apply app_inv_head in Hs as <-.
    rewrite published_after_counted. cbn [started Powertools.storedMetrics length].
    by rewrite Hm.
Qed.

Lemma unsupported_method_is_logged_and_skipped_witness :
  (∀ w, handler parse_flat {| Records := [delete_p1; update_p1] |} w
        = handler parse_flat {| Records := [update_p1] |}
            (logged ["Returning contract"; "Error request not supported"] w))
  ∧ (∀ l,
        Powertools.storedMetrics l = [] →
        length [delete_p1; update_p1] < 100 →
        ∃ o k lines,
          Powertools.lambdaHandler parse_flat {| Records := [update_p1] |} l
          = (o, relog (console (Powertools.world l)
                       ++ "Lambda invocation event" :: lines)%list k)
          ∧ Powertools.lambdaHandler parse_flat {| Records := [delete_p1; update_p1] |} l
            = (o, relog (console (Powertools.world l)
                         ++ "Lambda invocation event" :: "Returning contract"
                            :: "Error request not supported" :: lines)%list k))
  ∧ (∀ w, (handler parse_flat {| Records := [delete_p1] |} w).1 = Return tt)
  ∧ (∀ l,
        Powertools.storedMetrics l = [] →
        (Powertools.lambdaHandler parse_flat {| Records := [delete_p1] |} l).1
        = Throw (RangeError "The number of metrics recorded must be higher than zero")).
Proof.
  apply (unsupported_method_is_logged_and_skipped parse_flat delete_p1 [update_p1]
           (JObj {[ "property_id" := JStr "p1" ]})
           {| stringValue := Some "DELETE" |}).
  - vm_compute. reflexivity.
  - vm_compute. reflexivity.
  - discriminate.
  - discriminate.
Defined.

(** C7 as stated fails: a DELETE command alone makes the plain [handler]
    return normally, with the table untouched. Under the decorators of
    Powertools the invocation ends with the [RangeError] of [logMetrics],
    which does not tell an unsupported method: the invocation of a supported
    Create and the one of no record at all end with the same error, and only
    an accepted update makes an invocation return. *)
Example unsupported_method_is_not_signalled :
  let w := world0 {[ "p1" := p1_draft ]} in
  let error := RangeError "The number of metrics recorded must be higher than zero" in
  handler parse_flat {| Records := [delete_p1] |} w
  = (Return tt, logged ["Returning contract"; "Error request not supported"] w)
  ∧ (Powertools.lambdaHandler parse_flat {| Records := [delete_p1] |} (cold w)).1
    = Throw error
  ∧ (Powertools.lambdaHandler parse_flat {| Records := [create_p1] |} (cold w)).1
    = Throw error
  ∧ (Powertools.lambdaHandler parse_flat {| Records := [] |} (cold w)).1
    = Throw error
  ∧ (Powertools.lambdaHandler parse_flat {| Records := [update_p1] |} (cold w)).1
    = Return tt.
Proof. cbv zeta. split_and!; vm_compute; reflexivity. Qed.

(** X21: in an invocation of fewer than a hundred records that starts with no
    metric stored, the decorated [lambdaHandler] of the variant with
    Powertools does to the world what the plain [handler] does once the event
    is logged. It ends with the [RangeError] of [logMetrics] exactly when the
    invocation has added nothing to the stream, that is when no update was
    accepted, whatever the plain handler returns or throws; otherwise it ends
    as the plain handler does, and one [ContractUpdated] is published for
    every accepted update. *)
Theorem instrumented_handler_as_plain JSON_parse event l :
  Powertools.storedMetrics l = [] →
  length (Records event) < 100 →
  ∃ new,
    stream (handler JSON_parse event
              (logged ["Lambda invocation event"] (Powertools.world l))).2
    = (stream (Powertools.world l) ++ new)%list
    ∧ Powertools.lambdaHandler JSON_parse event l
      = (if decide (new = [])
         then Throw (RangeError "The number of metrics recorded must be higher than zero")
         else (handler JSON_parse event
                 (logged ["Lambda invocation event"] (Powertools.world l))).1,
         {| Powertools.world :=
              (handler JSON_parse event
                 (logged ["Lambda invocation event"] (Powertools.world l))).2;
            Powertools.storedMetrics := [];
            Powertools.emitted :=
              (Powertools.emitted l
               ++ (if Powertools.coldStart l then [[("ColdStart", 1%Z)]] else [])
               ++ (if decide (new = []) then []
                   else [replicate (length new) ("ContractUpdated", 1%Z)]))%list;
            Powertools.coldStart := false |}).
Proof.
  intros Hm _. rewrite lambdaHandler_unfold.
  destruct (counts_handler JSON_parse event (started l)) as (new & Hs & ->).
  exists new. split; [exact Hs|].
  cbn [started Powertools.world]. rewrite published_after_counted.
  cbn [started Powertools.storedMetrics Powertools.emitted Powertools.coldStart].
  rewrite Hm. unfold counted.
  cbn [started Powertools.storedMetrics Powertools.emitted Powertools.coldStart].
  rewrite Hm.
  destruct new as [|x new]; cbn [length app].
  - rewrite decide_True by done. by rewrite !app_nil_r.
  - rewrite decide_False by done. by rewrite <- app_assoc.
Qed.

Lemma instrumented_handler_as_plain_witness :
  ∃ new,
    stream (handler parse_flat {| Records := [update_p1] |}
              (logged ["Lambda invocation event"]
                 (Powertools.world (cold (world0 {[ "p1" := p1_draft ]}))))).2
    = (stream (Powertools.world (cold (world0 {[ "p1" := p1_draft ]}))) ++ new)%list
    ∧ Powertools.lambdaHandler parse_flat {| Records := [update_p1] |}
        (cold (world0 {[ "p1" := p1_draft ]}))
      = (if decide (new = [])
         then Throw (RangeError "The number of metrics recorded must be higher than zero")
         else (handler parse_flat {| Records := [update_p1] |}
                 (logged ["Lambda invocation event"]
                    (Powertools.world (cold (world0 {[ "p1" := p1_draft ]}))))).1,
         {| Powertools.world :=
              (handler parse_flat {| Records := [update_p1] |}
                 (logged ["Lambda invocation event"]
                    (Powertools.world (cold (world0 {[ "p1" := p1_draft ]}))))).2;
            Powertools.storedMetrics := [];
            Powertools.emitted :=
              (Powertools.emitted (cold (world0 {[ "p1" := p1_draft ]}))
               ++ (if Powertools.coldStart (cold (world0 {[ "p1" := p1_draft ]}))
                   then [[("ColdStart", 1%Z)]] else [])
               ++ (if decide (new = []) then []
                   else [replicate (length new) ("ContractUpdated", 1%Z)]))%list;
            Powertools.coldStart := false |}).
Proof.
  apply (instrumented_handler_as_plain parse_flat {| Records := [update_p1] |}
           (cold (world0 {[ "p1" := p1_draft ]}))).
  - reflexivity.
  - cbn. lia.
Defined.

(** The approval of [p1] by a fresh environment, and the same command
    again: the first invocation returns and publishes the cold start and the
    accepted update; the second is rejected by the table and ends with the
    error of [logMetrics], not with the exception of the update. *)
Example decorated_invocations :
  let w := world0 {[ "p1" := p1_draft ]} in
  let approval := Powertools.lambdaHandler parse_flat {| Records := [update_p1] |} (cold w) in
  let again := Powertools.lambdaHandler parse_flat {| Records := [update_p1] |} approval.2 in
  approval.1 = Return tt
  ∧ table (Powertools.world approval.2) !! "p1" ≫= (.!! "contract_status")
    = Some (AV_S "APPROVED")
  ∧ Powertools.emitted approval.2 = [[("ColdStart", 1%Z)]; [("ContractUpdated", 1%Z)]]
  ∧ again.1 = Throw (RangeError "The number of metrics recorded must be higher than zero")
  ∧ stream (Powertools.world again.2) = stream (Powertools.world approval.2)
  ∧ Powertools.emitted again.2 = Powertools.emitted approval.2.
Proof. cbv zeta. split_and!; vm_compute; reflexivity. Qed.


(** A malformed record followed by an update of the draft [p1], as the queue
    hands them over: the first invocation fails, the second approves [p1], as
    it does when the malformed record is not sent. *)
Example malformed_record_fails_alone :
  let w := world0 {[ "p1" := p1_draft ]} in
  let run := invoke parse_flat [[malformed "PUT"]; [update_p1]] w in
  let without := invoke parse_flat [[update_p1]] w in
  run.1 = [Throw (Error "Error parsing SQS Record"); Return tt]
  ∧ without.1 = [Return tt]
  ∧ table run.2 = table without.2
  ∧ stream run.2 = stream without.2
  ∧ table run.2 !! "p1" ≫= (.!! "contract_status") = Some (AV_S "APPROVED").
Proof. cbv zeta. split_and!; vm_compute; reflexivity. Qed.

(** *** The pipe *)

Lemma record_json_eventName r :
  prop (record_json r) "eventName" = Some (JStr (eventName r)).
Proof. unfold record_json, prop. by simplify_map_eq. Qed.

Lemma record_json_NewImage r :
  json_path ["dynamodb"; "NewImage"] (record_json r) = item_json <$> NewImage r.
Proof.
  unfold record_json. cbn [json_path prop]. simplify_map_eq.
  unfold with_image. destruct (NewImage r), (OldImage r); by simplify_map_eq.
Qed.

Lemma item_json_S img a :
  json_path [a; "S"] (item_json img) = string_attribute img a.
Proof.
  unfold item_json, string_attribute. cbn [json_path prop]. rewrite lookup_fmap.
  destruct (img !! a) as [[]|]; cbn; by simplify_map_eq.
Qed.

Lemma record_json_attribute r a :
  json_path ["dynamodb"; "NewImage"; a; "S"] (record_json r)
  = NewImage r ≫= λ img, string_attribute img a.
Proof.
  pose proof (record_json_NewImage r) as Himg.
  pose proof (item_json_S) as HS.
  cbn [json_path] in *.
  destruct (prop (record_json r) "dynamodb") as [d|]; [|by destruct (NewImage r)].
  destruct (prop d "NewImage") as [i|]; destruct (NewImage r) as [img|]; try done.
  injection Himg as ->. apply HS.
Qed.

Lemma admitted_pipe r :
  admitted pipe r =
    bool_decide (eventName r ∈ ["INSERT"; "MODIFY"])
    && match NewImage r ≫= (λ img, string_attribute img "contract_status") with
       | Some (JStr s) => bool_decide (s ∈ ["DRAFT"; "APPROVED"])
       | _ => false
       end.
Proof.
  unfold admitted. cbn [filters pipe existsb matches forallb fst snd].
  rewrite record_json_eventName.
  pose proof (record_json_attribute r "contract_status") as Hs.
  cbn [json_path] in Hs.
  destruct (prop (record_json r) "dynamodb") as [d|];
    [destruct (prop d "NewImage") as [i|];
     [destruct (prop i "contract_status") as [c|]|]|];
    rewrite <- Hs; rewrite ?andb_true_r, ?orb_false_r; try done.
  by destruct (prop c "S").
Qed.

Lemma monitored_status r :
  monitored r ↔
  ∃ s, NewImage r ≫= (λ img, string_attribute img "contract_status") = Some (JStr s)
       ∧ s ∈ ["DRAFT"; "APPROVED"].
Proof.
  unfold monitored, string_attribute. split.
  - intros (img & s & -> & Hs & Hin). exists s. cbn. by rewrite Hs.
  - intros (s & Hs & Hin). destruct (NewImage r) as [img|]; [|done].
    cbn in Hs. destruct (img !! "contract_status") as [[]|] eqn:Himg; try done.
    injection Hs as ->. by exists img, s.
Qed.

Lemma admitted_iff r :
  admitted pipe r = true ↔ eventName r ∈ ["INSERT"; "MODIFY"] ∧ monitored r.
Proof.
  rewrite admitted_pipe, andb_true_iff, bool_decide_eq_true, monitored_status.
  apply and_iff_compat_l.
  destruct (NewImage r ≫= _) as [[]|]; split;
    try (by intros [=]); try (by intros (? & [=] & _)).
  - intros Hin%bool_decide_eq_true. by eexists.
  - intros (? & [= <-] & Hin). by apply bool_decide_eq_true.
Qed.

Lemma transform_pipe r img :
  NewImage r = Some img →
  transform pipe r =
    {| Source := "unicorn.contracts";
       DetailType := "ContractStatusChanged";
       Detail := detail_of img |}.
Proof.
  intros Himg. unfold transform, detail_of.
  cbn [pipe inputTemplate eventBridgeEventBusParameters source detailType
       fmap list_fmap fst snd].
  by rewrite !record_json_attribute, Himg.
Qed.

(** C5: the filter admits an entry exactly when its event name is INSERT or
    MODIFY and the [contract_status] of its after-image is DRAFT or APPROVED;
    an entry whose after-image status is not one of the two gives no event. *)
Theorem filter_admits_monitored_statuses r :
  (admitted pipe r = true ↔ eventName r ∈ ["INSERT"; "MODIFY"] ∧ monitored r)
  ∧ (¬ monitored r → canonical_events pipe r = []).
Proof.
  split; [apply admitted_iff|].
  intros Hno. unfold canonical_events.
  destruct (admitted pipe r) eqn:Ha; [|done].
  destruct Hno. by apply admitted_iff.
Qed.

(** C4: an admitted entry gives exactly one event, with source
    [unicorn.contracts] and detail type [ContractStatusChanged], whose detail
    holds [property_id], [contract_id], [contract_status] and
    [contract_last_modified_on] as the after-image of the entry has them. *)
Theorem admitted_entry_gives_one_event r :
  admitted pipe r = true →
  ∃ img,
    NewImage r = Some img
    ∧ canonical_events pipe r =
        [ {| Source := "unicorn.contracts";
             DetailType := "ContractStatusChanged";
             Detail :=
               [("property_id", string_attribute img "property_id");
                ("contract_id", string_attribute img "contract_id");
                ("contract_status", string_attribute img "contract_status");
                ("contract_last_modified_on",
                 string_attribute img "contract_last_modified_on")] |} ].
Proof.
  intros Ha. unfold canonical_events. rewrite Ha.
  apply admitted_iff in Ha as (_ & img & s & Himg & _).
  exists img. split; [done|]. by rewrite (transform_pipe r img).
Qed.

Lemma admitted_entry_gives_one_event_witness :
  ∃ img,
    NewImage p1_approval = Some img
    ∧ canonical_events pipe p1_approval =
        [ {| Source := "unicorn.contracts";
             DetailType := "ContractStatusChanged";
             Detail :=
               [("property_id", string_attribute img "property_id");
                ("contract_id", string_attribute img "contract_id");
                ("contract_status", string_attribute img "contract_status");
                ("contract_last_modified_on",
                 string_attribute img "contract_last_modified_on")] |} ].
Proof.
  apply (admitted_entry_gives_one_event p1_approval).
  vm_compute. reflexivity.
Defined.

(** The filter at work: the approval of [p1] is admitted, a change to a
    status outside the monitored set gives nothing. *)
Example filter_examples :
  admitted pipe p1_approval = true
  ∧ canonical_events pipe p1_cancellation = [].
Proof. split; vm_compute; reflexivity. Qed.

(** X4: an accepted update shows on the stream as one entry, whose event carries
    the stored identifiers and the status APPROVED. *)
Lemma accepted_update_gives_one_event contract w w' :
  updateContract contract w = (Return tt, w') →
  ∃ pid item r,
    table w !! pid = Some item
    ∧ stream w' = (stream w ++ [r])%list
    ∧ NewImage r = table w' !! pid
    ∧ canonical_events pipe r =
        [ {| Source := "unicorn.contracts";
             DetailType := "ContractStatusChanged";
             Detail :=
               [("property_id", string_attribute item "property_id");
                ("contract_id", string_attribute item "contract_id");
                ("contract_status", Some (JStr "APPROVED"));
                ("contract_last_modified_on",
                 string_attribute item "contract_last_modified_on")] |} ].
Proof.
  intros Hrun.
  apply updateContract_accepted in Hrun as (pid & item & Hp & Ht & Hs & ->).
  set (new := approved_at (clock w (tick w)) item).
  set (r := {| eventName := "MODIFY"; Keys := {[ partitionKey := AV_S pid ]};
               OldImage := Some item; NewImage := Some new |}).
  exists pid, item, r.
  split; [done|].
  split. { unfold after_update, stream_of. cbn [stream].
           by rewrite decide_False by by apply approved_at_changes. }
  split. { unfold after_update. cbn [table NewImage r]. by rewrite lookup_insert_eq. }
  assert (Hadm : admitted pipe r = true).
  { apply admitted_iff. split; [set_solver|].
    exists new, "APPROVED". split; [done|].
    split; [subst new; unfold approved_at; by simplify_map_eq|set_solver]. }
  unfold canonical_events. rewrite Hadm, (transform_pipe r new) by done.
  subst new. unfold detail_of, string_attribute, approved_at. by simplify_map_eq.
Qed.

(** *** Delivery *)

Lemma run_app_no_run_l a : run_app no_run a = a.
Proof. by destruct a. Qed.

Lemma run_app_no_run_r a : run_app a no_run = a.
Proof. destruct a. unfold run_app. cbn. by rewrite !app_nil_r. Qed.

Lemma run_app_assoc a b c : run_app a (run_app b c) = run_app (run_app a b) c.
Proof. unfold run_app. cbn. by rewrite !app_assoc. Qed.

Section Delivery.

Variable p : CfnPipeProps.
Variable ok : StreamRecord → nat → bool.

(** A batch of one entry is never split, and the fuel [poll] gives covers its
    retries: the delivery ends. *)
Lemma deliver_single_total retries fuel attempt r :
  retries < fuel → is_Some (deliver p ok fuel retries attempt [r]).
Proof.
  revert fuel attempt. induction retries as [|retries IH]; intros fuel attempt Hlt;
    (destruct fuel as [|fuel]; [lia|]); cbn [deliver forallb length].
  - destruct (ok r attempt); cbn [andb]; [done|].
    rewrite andb_false_r. done.
  - destruct (ok r attempt); cbn [andb]; [done|].
    rewrite andb_false_r.
    destruct (IH fuel (S attempt)) as [a ->]; [lia|]. done.
Qed.

(** An entry that fails every time is tried once and once more for each
    retry, and is then sent to the dead-letter queue. *)
Lemma deliver_single_failing q retries fuel attempt r :
  deadLetterConfig (dynamoDbStreamParameters p) = Some q →
  (∀ n, ok r n = false) →
  retries < fuel →
  deliver p ok fuel retries attempt [r]
  = Some {| published := []; dead_letter := [[r]];
            invocations := replicate (S retries) [r] |}.
Proof.
  intros Hq Hfail. revert fuel attempt.
  induction retries as [|retries IH]; intros fuel attempt Hlt;
    (destruct fuel as [|fuel]; [lia|]); cbn [deliver forallb length];
    rewrite Hfail; cbn [andb]; rewrite andb_false_r.
  - by rewrite Hq.
  - rewrite (IH fuel (S attempt)) by lia. done.
Qed.

Lemma poll_single r :
  poll p ok [r] =
    if admitted p r
    then deliver p ok (1 + maximumRetryAttempts (dynamoDbStreamParameters p) + 1)
           (maximumRetryAttempts (dynamoDbStreamParameters p)) 0 [r]
    else Some no_run.
Proof. unfold poll. cbn [List.filter]. by destruct (admitted p r). Qed.

Lemma run_singles_total l : is_Some (run p ok ((λ x, [x]) <$> l)).
Proof.
  induction l as [|r l [rest IH]]; [done|].
  cbn [fmap list_fmap run]. rewrite poll_single, IH.
  destruct (admitted p r); [|done].
  destruct (deliver_single_total (maximumRetryAttempts (dynamoDbStreamParameters p))
              (1 + maximumRetryAttempts (dynamoDbStreamParameters p) + 1) 0 r)
    as [a ->]; [lia|done].
Qed.

Lemma run_batches_app bs1 bs2 :
  run p ok (bs1 ++ bs2) =
    a ← run p ok bs1; b ← run p ok bs2; Some (run_app a b).
Proof.
  induction bs1 as [|b bs1 IH]; cbn [app run].
  - cbn. destruct (run p ok bs2); cbn; [by rewrite run_app_no_run_l|done].
  - destruct (poll p ok b) as [x|]; cbn; [|done]. rewrite IH.
    destruct (run p ok bs1) as [y|]; cbn; [|done].
    destruct (run p ok bs2) as [z|]; cbn; [|done].
    by rewrite run_app_assoc.
Qed.

End Delivery.

Lemma forallb_eq {A} (f g : A → bool) (l : list A) :
  (∀ x, f x = g x) → forallb f l = forallb g l.
Proof. intros Hfg. induction l as [|x l IH]; cbn; [done|]. by rewrite Hfg, IH. Qed.

Lemma filter_forallb {A} (f : A → bool) (l : list A) :
  forallb f l = true →
  List.filter f l = l ∧ List.filter (λ x, negb (f x)) l = [].
Proof.
  induction l as [|x l IH]; cbn; [done|].
  intros [Hx Hl]%andb_true_iff. rewrite Hx. cbn.
  destruct (IH Hl) as [-> ->]. done.
Qed.

Lemma filter_filter_andb {A} (f g : A → bool) (l : list A) :
  List.filter g (List.filter f l) = List.filter (λ x, f x && g x) l.
Proof.
  induction l as [|x l IH]; cbn; [done|].
  destruct (f x); cbn; [|done]. destruct (g x); by rewrite IH.
Qed.

Section Bisection.

Variable p : CfnPipeProps.
Variable ok : StreamRecord → nat → bool.
Variable good : StreamRecord → bool.
Variable q : string.

Hypothesis ok_good : ∀ x n, ok x n = good x.
Hypothesis p_bisects : bisects (dynamoDbStreamParameters p) = true.
Hypothesis p_dead_letter : deadLetterConfig (dynamoDbStreamParameters p) = Some q.

(** When the verdict of the bus on an entry does not change from one attempt
    to the next, a batch of any size is split until the failing entries are
    alone: the others are published, in order, and each failing entry goes to
    the dead-letter queue in a batch of its own. *)
Lemma deliver_isolates fuel retries attempt batch :
  length batch + retries < fuel →
  ∃ result,
    deliver p ok fuel retries attempt batch = Some result
    ∧ published result = transform p <$> List.filter good batch
    ∧ dead_letter result = (λ x, [x]) <$> List.filter (λ x, negb (good x)) batch.
Proof.
  revert retries attempt batch.
  induction fuel as [|fuel IH]; intros retries attempt batch Hfuel; [lia|].
  cbn [deliver]. rewrite (forallb_eq _ good) by (intros x; apply ok_good).
  destruct (forallb good batch) eqn:Hall.
  { destruct (filter_forallb good batch Hall) as [-> ->].
    eexists. split; [reflexivity|]. cbn. done. }
  rewrite p_bisects. cbn [andb].
  destruct (1 <? length batch)%nat eqn:Hlen;
    [apply Nat.ltb_lt in Hlen|apply Nat.ltb_ge in Hlen].
  - set (h := length batch `div` 2).
    assert (Hh : 1 ≤ h < length batch).
    { subst h. split.
      - apply (Nat.div_le_lower_bound _ 2 1); lia.
      - apply Nat.div_lt; lia. }
    destruct (IH retries (S attempt) (take h batch)) as (a & -> & Hpa & Hda).
    { rewrite length_take. lia. }
    destruct (IH retries (S attempt) (drop h batch)) as (b & -> & Hpb & Hdb).
    { rewrite length_drop. lia. }
    eexists. split; [reflexivity|]. cbn [run_app published dead_letter app mbind option_bind].
    rewrite Hpa, Hpb, Hda, Hdb, <- !fmap_app, <- !List.filter_app, take_drop. done.
  - destruct batch as [|x [|y batch]]; cbn in Hall, Hlen; [done| |lia].
    rewrite andb_true_r in Hall.
    destruct retries as [|retries].
    + eexists. split; [reflexivity|]. cbn. by rewrite Hall, p_dead_letter.
    + destruct (IH retries (S attempt) [x]) as (a & -> & Hpa & Hda); [cbn in *; lia|].
      eexists. split; [reflexivity|]. cbn [run_app published dead_letter app mbind option_bind].
      by rewrite Hpa, Hda.
Qed.

Lemma poll_isolates batch :
  ∃ result,
    poll p ok batch = Some result
    ∧ published result
      = transform p <$> List.filter (λ x, admitted p x && good x) batch
    ∧ dead_letter result
      = (λ x, [x]) <$> List.filter (λ x, admitted p x && negb (good x)) batch.
Proof.
  unfold poll. rewrite <- !filter_filter_andb.
  destruct (List.filter (admitted p) batch) as [|x entries] eqn:He.
  - by exists no_run.
  - apply deliver_isolates. lia.
Qed.

End Bisection.

(** C9: with the pipe as configured (batches of one entry, three retries, a
    dead-letter queue), an admitted entry whose publication fails every time
    is handed to the bus four times, once and three retries, and then sent to
    the dead-letter queue in a batch of its own. The run goes on: the entries
    before and after it are delivered as they are without it. Whatever the
    size of a polled batch, when the verdict of the bus on an entry does not
    change between attempts, bisection isolates the failing entries: every
    other admitted entry is published, in order, and each failing one is
    dead-lettered alone. *)
Theorem failing_entry_is_retried_then_dead_lettered ok batches pre r post :
  batching (batchSize (dynamoDbStreamParameters pipe)) batches (pre ++ r :: post) →
  admitted pipe r = true →
  (∀ n, ok r n = false) →
  (∃ before after result,
      run pipe ok ((λ x, [x]) <$> pre) = Some before
      ∧ run pipe ok ((λ x, [x]) <$> post) = Some after
      ∧ run pipe ok batches = Some result
      ∧ published result = (published before ++ published after)%list
      ∧ dead_letter result = (dead_letter before ++ [r] :: dead_letter after)%list
      ∧ invocations result
        = (invocations before ++ replicate 4 [r] ++ invocations after)%list)
  ∧ (∀ good polled,
        (∀ x n, ok x n = good x) →
        r ∈ polled →
        ∃ result,
          poll pipe ok polled = Some result
          ∧ published result
            = transform pipe <$> List.filter (λ x, admitted pipe x && good x) polled
          ∧ dead_letter result
            = (λ x, [x]) <$> List.filter (λ x, admitted pipe x && negb (good x)) polled
          ∧ [r] ∈ dead_letter result).
Proof.
  intros ->%batching_one Hadm Hfail. split.
  - destruct (run_singles_total pipe ok pre) as [before Hpre].
    destruct (run_singles_total pipe ok post) as [after Hpost].
    eexists before, after, _. split; [done|]. split; [done|].
    rewrite fmap_app, run_batches_app, Hpre.
    cbn [fmap list_fmap run mbind option_bind].
    rewrite poll_single, Hadm.
    rewrite (deliver_single_failing pipe ok pipeDLQ) by (done || cbn; lia).
    rewrite Hpost. cbn [mbind option_bind]. split; [reflexivity|].
    cbn. done.
  - intros good polled Hgood Hr.
    destruct (poll_isolates pipe ok good pipeDLQ Hgood eq_refl eq_refl polled)
      as (result & Hpoll & Hp & Hd).
    exists result. split; [done|]. split; [done|]. split; [done|].
    rewrite Hd. apply (list_elem_of_fmap_2 (λ x, [x])).
    apply list_elem_of_In, List.filter_In. split; [by apply list_elem_of_In|].
    by rewrite Hadm, <- (Hgood r 0), Hfail.
Qed.

(** The configured run on the creation and the approval of [p1], with a bus
    that refuses the approval: the creation is published, the approval is
    tried four times and dead-lettered. In one batch of two, the failure
    splits the batch and the creation is still published. *)
Example delivery_examples :
  run pipe inserts_only [[p1_creation]; [p1_approval]]
  = Some {| published := [transform pipe p1_creation];
            dead_letter := [[p1_approval]];
            invocations := [p1_creation] :: replicate 4 [p1_approval] |}
  ∧ run pipe inserts_only [[p1_creation; p1_approval]]
    = Some {| published := [transform pipe p1_creation];
              dead_letter := [[p1_approval]];
              invocations := [p1_creation; p1_approval] :: [p1_creation]
                             :: replicate 4 [p1_approval] |}.
Proof. split; vm_compute; reflexivity. Qed.

Lemma failing_entry_is_retried_then_dead_lettered_witness :
  (∃ before after result,
      run pipe inserts_only ((λ x, [x]) <$> [p1_creation]) = Some before
      ∧ run pipe inserts_only ((λ x, [x]) <$> []) = Some after
      ∧ run pipe inserts_only [[p1_creation]; [p1_approval]] = Some result
      ∧ published result = (published before ++ published after)%list
      ∧ dead_letter result
        = (dead_letter before ++ [p1_approval] :: dead_letter after)%list
      ∧ invocations result
        = (invocations before ++ replicate 4 [p1_approval] ++ invocations after)%list)
  ∧ (∀ good polled,
        (∀ x n, inserts_only x n = good x) →
        p1_approval ∈ polled →
        ∃ result,
          poll pipe inserts_only polled = Some result
          ∧ published result
            = transform pipe <$> List.filter (λ x, admitted pipe x && good x) polled
          ∧ dead_letter result
            = (λ x, [x]) <$> List.filter (λ x, admitted pipe x && negb (good x)) polled
          ∧ [p1_approval] ∈ dead_letter result).
Proof.
  apply (failing_entry_is_retried_then_dead_lettered inserts_only
           [[p1_creation]; [p1_approval]] [p1_creation] p1_approval []).
  - split; [reflexivity|]. repeat constructor; cbn; lia.
  - vm_compute. reflexivity.
  - intros n. vm_compute. reflexivity.
Defined.

(** *** The existence check *)

Lemma project_lookup attrs (item : Item) a :
  a ∈ attrs → project attrs item !! a = item !! a.
Proof.
  intros Ha. unfold project. rewrite map_lookup_filter.
  destruct (item !! a); cbn; [|done]. by rewrite option_guard_True.
Qed.

Lemma check_reaches_the_read send event pid :
  json_path ["Input"; "property_id"] event = Some (JStr pid) →
  ContractExistsCheckerFunction.check send event
  = (currentStatus ← ContractExistsCheckerFunction.getContractStatus send
                       (Some (JStr pid));
     match currentStatus with
     | None => mret (currentStatus, false)
     | Some status =>
         c_id ← get_member currentStatus "contract_id";
         if is_undefined c_id || strict_eq_string c_id ""
         then mret (currentStatus, false)
         else mret (currentStatus, true)
     end).
Proof.
  intros Hpath. cbn [json_path] in Hpath.
  unfold ContractExistsCheckerFunction.check.
  destruct (prop event "Input") as [detail|] eqn:Hin; [|done].
  destruct (prop detail "property_id") as [v|] eqn:Hp; [|done].
  injection Hpath as ->.
  rewrite get_member_not_null by (by intros ->).
  rewrite Hin. cbn [mbind Outcome_bind].
  rewrite get_member_not_null by (by intros ->).
  by rewrite Hp.
Qed.

Lemma check_answered t event pid :
  json_path ["Input"; "property_id"] event = Some (JStr pid) →
  valid_key_value pid = true →
  ContractExistsCheckerFunction.check
    (ContractExistsCheckerFunction.send_GetItemCommand t) event
  = Return (ContractExistsCheckerFunction.unmarshall ∘ projected <$> t !! pid,
            from_option has_contract_id false (t !! pid)).
Proof.
  intros Hpath Hvalid. rewrite (check_reaches_the_read _ event pid Hpath).
  unfold ContractExistsCheckerFunction.getContractStatus,
    ContractExistsCheckerFunction.send_GetItemCommand, GetItem.
  cbn [S_value GetKey ProjectionExpression]. rewrite key_of_property_id, Hvalid.
  cbn [mbind Outcome_bind].
  destruct (t !! pid) as [item|]; cbn; [|done].
  unfold has_contract_id. rewrite lookup_fmap, project_lookup by set_solver.
  destruct (item !! "contract_id") as [[s| | |]|]; cbn; try done.
  by destruct (bool_decide (s = "")).
Qed.

Lemma handler_answered t event pid :
  json_path ["Input"; "property_id"] event = Some (JStr pid) →
  valid_key_value pid = true →
  ContractExistsCheckerFunction.handler
    (ContractExistsCheckerFunction.send_GetItemCommand t) event
  = match t !! pid with
    | Some item =>
        if has_contract_id item
        then Return {| ContractExistsCheckerFunction.statusCode := 200;
                       ContractExistsCheckerFunction.body :=
                         ContractExistsCheckerFunction.stringify
                           (Some (ContractExistsCheckerFunction.unmarshall
                                    (projected item))) |}
        else Throw (ContractStatusNotFoundException 400)
    | None => Throw (ContractStatusNotFoundException 400)
    end.
Proof.
  intros Hpath Hvalid. unfold ContractExistsCheckerFunction.handler.
  rewrite (check_answered t event pid Hpath Hvalid).
  destruct (t !! pid) as [item|]; cbn; [|done].
  by destruct (has_contract_id item).
Qed.

(** A key value that is not valid is refused by the table, and the refusal is
    returned with status code 500. *)
Lemma handler_invalid_key t event pid :
  json_path ["Input"; "property_id"] event = Some (JStr pid) →
  valid_key_value pid = false →
  ContractExistsCheckerFunction.handler
    (ContractExistsCheckerFunction.send_GetItemCommand t) event
  = Return {| ContractExistsCheckerFunction.statusCode := 500;
              ContractExistsCheckerFunction.body :=
                ContractExistsCheckerFunction.stringify_error
                  (ServiceException "ValidationException") |}.
Proof.
  intros Hpath Hvalid. unfold ContractExistsCheckerFunction.handler.
  rewrite (check_reaches_the_read _ event pid Hpath).
  unfold ContractExistsCheckerFunction.getContractStatus,
    ContractExistsCheckerFunction.send_GetItemCommand, GetItem.
  cbn [S_value GetKey ProjectionExpression]. by rewrite key_of_property_id, Hvalid.
Qed.

Lemma handler_read_fault e event pid :
  json_path ["Input"; "property_id"] event = Some (JStr pid) →
  ContractExistsCheckerFunction.handler (λ _, Throw e) event
  = Return {| ContractExistsCheckerFunction.statusCode := 500;
              ContractExistsCheckerFunction.body :=
                ContractExistsCheckerFunction.stringify_error e |}.
Proof.
  intros Hpath. unfold ContractExistsCheckerFunction.handler.
  by rewrite (check_reaches_the_read _ event pid Hpath).
Qed.

Lemma has_contract_id_false (item : Item) :
  has_contract_id item = false
  ↔ item !! "contract_id" = None ∨ item !! "contract_id" = Some (AV_S "").
Proof.
  unfold has_contract_id.
  destruct (item !! "contract_id") as [[s| | |]|];
    try (split; [done|by intros [[=]|[=]]]).
  - rewrite negb_false_iff, bool_decide_eq_true.
    split; [intros ->; by right|by intros [[=]|[= ->]]].
  - split; [by left|done].
Qed.

(** C6, as the code has it: for a [property_id] that is a valid key value
    and a stored record that is a [ContractStatus], the check throws the
    not-found exception, whose status code is 400, exactly when no record is
    stored for the [property_id], or the stored record has no [contract_id],
    or its [contract_id] is the empty string. Otherwise it returns status code
    200 with the stored [contract_id], [property_id] and [contract_status].
    A [property_id] that is not a valid key value and a fault of the read are
    returned with status code 500. *)
Theorem existence_check_outcomes t event pid :
  json_path ["Input"; "property_id"] event = Some (JStr pid) →
  (valid_key_value pid = true →
   (∀ item, t !! pid = Some item → is_ContractStatus item) →
   (ContractExistsCheckerFunction.handler
      (ContractExistsCheckerFunction.send_GetItemCommand t) event
    = Throw (ContractStatusNotFoundException 400)
    ↔ t !! pid = None
      ∨ ∃ item, t !! pid = Some item
                ∧ (item !! "contract_id" = None
                   ∨ item !! "contract_id" = Some (AV_S "")))
   ∧ (∀ item,
        t !! pid = Some item →
        item !! "contract_id" ≠ None →
        item !! "contract_id" ≠ Some (AV_S "") →
        ContractExistsCheckerFunction.handler
          (ContractExistsCheckerFunction.send_GetItemCommand t) event
        = Return {| ContractExistsCheckerFunction.statusCode := 200;
                    ContractExistsCheckerFunction.body :=
                      ContractExistsCheckerFunction.stringify
                        (Some (ContractExistsCheckerFunction.unmarshall
                                 (projected item))) |}
          ∧ projected item !! "contract_id" = item !! "contract_id"
          ∧ projected item !! "property_id" = item !! "property_id"
          ∧ projected item !! "contract_status" = item !! "contract_status"))
  ∧ (valid_key_value pid = false →
     ContractExistsCheckerFunction.handler
       (ContractExistsCheckerFunction.send_GetItemCommand t) event
     = Return {| ContractExistsCheckerFunction.statusCode := 500;
                 ContractExistsCheckerFunction.body :=
                   ContractExistsCheckerFunction.stringify_error
                     (ServiceException "ValidationException") |})
  ∧ (∀ e, ContractExistsCheckerFunction.handler (λ _, Throw e) event
          = Return {| ContractExistsCheckerFunction.statusCode := 500;
                      ContractExistsCheckerFunction.body :=
                        ContractExistsCheckerFunction.stringify_error e |}).
Proof.
  intros Hpath. split; [|split].
  - intros Hvalid _. rewrite (handler_answered t event pid Hpath Hvalid). split.
    + destruct (t !! pid) as [item|]; [|split; [by left|done]].
      destruct (has_contract_id item) eqn:Hc.
      * split; [done|]. intros [|(? & [= <-] & Hno)]; [done|].
        apply has_contract_id_false in Hno. congruence.
      * split; [|done]. intros _. right. exists item. split; [done|].
        by apply has_contract_id_false.
    + intros item -> Hsome Hne.
      destruct (has_contract_id item) eqn:Hc.
      * split; [done|]. unfold projected.
        split; [|split]; apply project_lookup; set_solver.
      * apply has_contract_id_false in Hc. destruct Hc; congruence.
  - by apply handler_invalid_key.
  - intros e. by apply (handler_read_fault e event pid).
Qed.

Lemma existence_check_outcomes_witness :
  (valid_key_value "p1" = true →
   (∀ item, ({[ "p1" := p1_draft ]} : Table) !! "p1" = Some item →
            is_ContractStatus item) →
   (ContractExistsCheckerFunction.handler
      (ContractExistsCheckerFunction.send_GetItemCommand {[ "p1" := p1_draft ]})
      (request "p1")
    = Throw (ContractStatusNotFoundException 400)
    ↔ ({[ "p1" := p1_draft ]} : Table) !! "p1" = None
      ∨ ∃ item, ({[ "p1" := p1_draft ]} : Table) !! "p1" = Some item
                ∧ (item !! "contract_id" = None
                   ∨ item !! "contract_id" = Some (AV_S "")))
   ∧ (∀ item,
        ({[ "p1" := p1_draft ]} : Table) !! "p1" = Some item →
        item !! "contract_id" ≠ None →
        item !! "contract_id" ≠ Some (AV_S "") →
        ContractExistsCheckerFunction.handler
          (ContractExistsCheckerFunction.send_GetItemCommand {[ "p1" := p1_draft ]})
          (request "p1")
        = Return {| ContractExistsCheckerFunction.statusCode := 200;
                    ContractExistsCheckerFunction.body :=
                      ContractExistsCheckerFunction.stringify
                        (Some (ContractExistsCheckerFunction.unmarshall
                                 (projected item))) |}
          ∧ projected item !! "contract_id" = item !! "contract_id"
          ∧ projected item !! "property_id" = item !! "property_id"
          ∧ projected item !! "contract_status" = item !! "contract_status"))
  ∧ (valid_key_value "p1" = false →
     ContractExistsCheckerFunction.handler
       (ContractExistsCheckerFunction.send_GetItemCommand {[ "p1" := p1_draft ]})
       (request "p1")
     = Return {| ContractExistsCheckerFunction.statusCode := 500;
                 ContractExistsCheckerFunction.body :=
                   ContractExistsCheckerFunction.stringify_error
                     (ServiceException "ValidationException") |})
  ∧ (∀ e, ContractExistsCheckerFunction.handler (λ _, Throw e) (request "p1")
          = Return {| ContractExistsCheckerFunction.statusCode := 500;
                      ContractExistsCheckerFunction.body :=
                        ContractExistsCheckerFunction.stringify_error e |}).
Proof.
  apply (existence_check_outcomes {[ "p1" := p1_draft ]} (request "p1") "p1").
  vm_compute. reflexivity.
Defined.

(** The hypotheses of the case analysis hold for the stored draft [p1]. *)
Example p1_is_a_valid_ContractStatus :
  valid_key_value "p1" = true ∧ is_ContractStatus p1_draft.
Proof.
  split; [reflexivity|]. intros a Ha. right.
  rewrite !elem_of_cons, elem_of_nil in Ha.
  destruct Ha as [->|[->|[->|[]]]]; eexists; vm_compute; reflexivity.
Qed.

(** C6 as stated fails: a record is stored for [p1] and has a [contract_id],
    the empty string, and the check answers not found. *)
Example empty_contract_id_is_not_found :
  (∃ item, ({[ "p1" := contract_item "p1" "" "DRAFT" "2024-04-30T09:00:00.000Z" ]}
              : Table) !! "p1" = Some item
           ∧ is_Some (item !! "contract_id"))
  ∧ ContractExistsCheckerFunction.handler
      (ContractExistsCheckerFunction.send_GetItemCommand
         {[ "p1" := contract_item "p1" "" "DRAFT" "2024-04-30T09:00:00.000Z" ]})
      (request "p1")
    = Throw (ContractStatusNotFoundException 400).
Proof.
  split.
  - eexists. split; [by rewrite lookup_singleton_eq|]. by eexists.
  - vm_compute. reflexivity.
Qed.

(** The check on the examples: nothing stored, then a stored draft. *)
Example existence_check_examples :
  ContractExistsCheckerFunction.handler
    (ContractExistsCheckerFunction.send_GetItemCommand ∅) (request "p1")
  = Throw (ContractStatusNotFoundException 400)
  ∧ ContractExistsCheckerFunction.statusCode
      <$> (match ContractExistsCheckerFunction.handler
                   (ContractExistsCheckerFunction.send_GetItemCommand
                      {[ "p1" := p1_draft ]}) (request "p1") with
           | Return response => Some response
           | Throw _ => None
           end)
    = Some 200%Z.
Proof. split; vm_compute; reflexivity. Qed.

(** ** More on the command processor *)

Lemma logged_logged l1 l2 w : logged l2 (logged l1 w) = logged (l1 ++ l2) w.
Proof. unfold logged. cbn. by rewrite app_assoc. Qed.

Ltac no_new_entry :=
  exists []; cbn; rewrite ?app_nil_r;
  split; [done|split; [cbn; lia|constructor]].

(** The stream after [updateContract]: at most one new entry, the approval. *)
Lemma updateContract_stream contract w :
  ∃ new,
    stream (updateContract contract w).2 = (stream w ++ new)%list
    ∧ (length new ≤ 1)%nat
    ∧ Forall approval_entry new.
Proof.
  destruct (updateContract_cases contract w)
    as [(pid & item & _ & Ht & _ & Hs & ->)|(_ & e & w' & -> & _ & Heq)]; cycle 1.
  { cbn [snd]. rewrite Heq. no_new_entry. }
  set (new := approved_at (clock w (tick w)) item).
  exists [ {| eventName := "MODIFY"; Keys := {[ partitionKey := AV_S pid ]};
              OldImage := Some item; NewImage := Some new |} ].
  split.
  { unfold after_update, stream_of. cbn [snd stream].
    by rewrite decide_False by by apply approved_at_changes. }
  split; [cbn; lia|]. apply Forall_singleton.
  assert (Hnew : new !! "contract_status" = Some (AV_S "APPROVED"))
    by (subst new; unfold approved_at; by simplify_map_eq).
  split; [done|]. split; [by exists item|].
  exists new. split; [done|]. split; [done|].
  unfold canonical_events.
  rewrite (proj2 (admitted_iff _)), (transform_pipe _ new) by
    (done || (split; [set_solver|]; exists new, "APPROVED";
              split; [done|]; split; [done|set_solver])).
  done.
Qed.

Section MoreHandlerProperties.

Variable JSON_parse : string → option json.

Lemma switch_stream method contract w :
  ∃ new,
    stream (switch method contract w).2 = (stream w ++ new)%list
    ∧ (length new ≤ 1)%nat
    ∧ Forall approval_entry new.
Proof.
  unfold switch. repeat case_decide;
    try no_new_entry.
  destruct (updateContract_stream contract (logged ["Updating a contract"] w))
    as (new & Hs & Hlen & Hall).
  exists new. split; [|done].
  unfold mbind, Prog_bind, try_catch, console_log, throw. cbn.
  unfold logged in Hs.
  by destruct (updateContract contract _) as [[[]|e] w'].
Qed.

Lemma handle_record_stream r w :
  ∃ new,
    stream (handle_record JSON_parse r w).2 = (stream w ++ new)%list
    ∧ (length new ≤ 1)%nat
    ∧ Forall approval_entry new.
Proof.
  destruct (JSON_parse (body r)) as [v|] eqn:Hv; cycle 1.
  { unfold handle_record, mbind, Prog_bind. rewrite parseRecord_malformed by done.
    no_new_entry. }
  destruct (messageAttributes r !! "HttpMethod") as [a|] eqn:Ha.
  - rewrite (handle_record_parsed _ r v a) by done.
    apply (switch_stream _ _ (logged ["Returning contract"] w)).
  - unfold handle_record, HttpMethod, mbind, Prog_bind.
    rewrite (parseRecord_ok _ _ v) by done. rewrite Ha.
    no_new_entry.
Qed.

(** X3: every entry the handler adds to the table stream records the approval of
    a draft, and the pipe makes exactly one [ContractStatusChanged] event of
    it, from its after-image. A batch adds at most one entry per record, and
    never touches the entries that were there. *)
Theorem handler_stream_entries_are_published_approvals event w :
  ∃ new,
    stream (handler JSON_parse event w).2 = (stream w ++ new)%list
    ∧ (length new ≤ length (Records event))%nat
    ∧ Forall approval_entry new.
Proof.
  unfold handler. destruct event as [records]. cbn [Records].
  revert w. induction records as [|r records IH]; intros w.
  { no_new_entry. }
  cbn [for_of]. unfold mbind at 1, Prog_bind at 1.
  destruct (handle_record_stream r w) as (new1 & Hs1 & Hlen1 & Hall1).
  destruct (handle_record JSON_parse r w) as [[[]|e] w'].
  - destruct (IH w') as (new2 & Hs2 & Hlen2 & Hall2). cbn [snd] in Hs1.
    exists (new1 ++ new2)%list. rewrite Hs2, Hs1, app_assoc.
    split; [done|]. split; [rewrite length_app; cbn; lia|by apply Forall_app].
  - exists new1. split; [done|]. split; [cbn; lia|done].
Qed.

End MoreHandlerProperties.

Lemma approvals_only_frame (t t' : Table) :
  approvals_only t t' →
  dom t' = dom t
  ∧ ∀ k item',
      t' !! k = Some item' →
      ∃ item, t !! k = Some item
              ∧ ∀ a, a ≠ "contract_status" → a ≠ "modified_date" →
                     item' !! a = item !! a.
Proof.
  intros Happ. split.
  - apply set_eq. intros k. rewrite !elem_of_dom.
    destruct (Happ k) as [->|(item & now & Ht & _ & Ht')]; [done|].
    rewrite Ht, Ht'. split; by eauto.
  - intros k item' Hk.
    destruct (Happ k) as [Heq|(item & now & Ht & _ & Ht')].
    + exists item'. by rewrite <- Heq.
    + exists item. split; [done|]. intros a H1 H2.
      rewrite Hk in Ht'. injection Ht' as ->.
      unfold approved_at. by simplify_map_eq.
Qed.

Section BatchProperties.

Variable JSON_parse : string → option json.

Lemma for_of_approvals_only records w :
  approvals_only (table w) (table (for_of records (handle_record JSON_parse) w).2).
Proof.
  revert w. induction records as [|r records IH]; intros w;
    [apply approvals_only_refl|].
  cbn [for_of]. unfold mbind at 1, Prog_bind at 1.
  pose proof (handle_record_approvals_only JSON_parse r w) as Hr.
  destruct (handle_record JSON_parse r w) as [[[]|e] w']; [|exact Hr].
  eapply approvals_only_trans; [exact Hr|apply IH].
Qed.

(** X2: whatever the batch, the handler neither creates nor removes a record:
    the table holds the same keys after it. Of a stored record it changes
    [contract_status] and [modified_date] at most: [property_id],
    [contract_id] and every other attribute stay as stored. *)
Theorem handler_keeps_records_and_identifiers event w :
  dom (table (handler JSON_parse event w).2) = dom (table w)
  ∧ ∀ k item',
      table (handler JSON_parse event w).2 !! k = Some item' →
      ∃ item, table w !! k = Some item
              ∧ ∀ a, a ≠ "contract_status" → a ≠ "modified_date" →
                     item' !! a = item !! a.
Proof. apply approvals_only_frame, for_of_approvals_only. Qed.

(** X7: the plain [handler], without the decorators of Powertools, processes
    a batch as its parts in sequence: the second part runs in the world the
    first one leaves, unless the first one throws, which ends the invocation
    there. *)
Theorem handler_of_concatenated_batches pre post w :
  handler JSON_parse {| Records := pre ++ post |} w
  = match handler JSON_parse {| Records := pre |} w with
    | (Return _, w') => handler JSON_parse {| Records := post |} w'
    | (Throw e, w') => (Throw e, w')
    end.
Proof. unfold handler. cbn [Records]. apply for_of_app. Qed.

(** X6: in the plain [handler], without the decorators of Powertools, an
    error of the update is logged and thrown again as it is: the handler ends
    with the very exception [updateContract] threw, and the records after it
    are not processed. *)
Theorem update_error_is_logged_and_rethrown r rest v a w e w2 :
  JSON_parse (body r) = Some v →
  messageAttributes r !! "HttpMethod" = Some a →
  stringValue a = Some "PUT" →
  updateContract v (logged ["Returning contract"; "Updating a contract"] w)
  = (Throw e, w2) →
  handler JSON_parse {| Records := r :: rest |} w
  = (Throw e, logged ["Error during DDB UPDATE"] w2).
Proof.
  intros Hv Ha Hm Hup. unfold handler. cbn [Records for_of].
  unfold mbind at 1, Prog_bind at 1.
  rewrite (handle_record_parsed _ r v a) by done. rewrite Hm.
  unfold switch. rewrite decide_False by done. rewrite decide_True by done.
  unfold mbind, Prog_bind, try_catch, console_log, throw. cbn.
  unfold logged in Hup. cbn in Hup. rewrite <- app_assoc. cbn. by rewrite Hup.
Qed.

(** X8: a record without the [HttpMethod] attribute makes the plain [handler],
    without the decorators of Powertools, throw a [TypeError] once its payload
    is parsed, or the parsing error when the payload does not parse; nothing
    is written either way. *)
Theorem record_without_method_throws r rest w :
  messageAttributes r !! "HttpMethod" = None →
  handler JSON_parse {| Records := r :: rest |} w
  = match JSON_parse (body r) with
    | Some _ =>
        (Throw (TypeError "Cannot read properties of undefined (reading 'stringValue')"),
         logged ["Returning contract"] w)
    | None =>
        (Throw (Error "Error parsing SQS Record"),
         logged ["Error parsing SQS Record"] w)
    end.
Proof.
  intros Ha. unfold handler. cbn [Records for_of].
  unfold mbind at 1, Prog_bind at 1.
  unfold handle_record, HttpMethod, mbind, Prog_bind.
  destruct (JSON_parse (body r)) as [v|] eqn:Hv.
  - rewrite (parseRecord_ok _ _ v) by done. by rewrite Ha.
  - by rewrite parseRecord_malformed.
Qed.

(** X9: in the plain [handler], without the decorators of Powertools, a PUT
    whose payload is [null] fails with a [TypeError] when the update reads
    [contract_id]: the clock has been read, no request is built or sent, and
    the error is logged as an error of the update. *)
Theorem update_with_null_payload_throws r rest a w :
  JSON_parse (body r) = Some JNull →
  messageAttributes r !! "HttpMethod" = Some a →
  stringValue a = Some "PUT" →
  handler JSON_parse {| Records := r :: rest |} w
  = (Throw (TypeError "Cannot read properties of null (reading 'contract_id')"),
     {| table := table w; stream := stream w; clock := clock w;
        tick := S (tick w);
        console := console w ++ ["Returning contract"; "Updating a contract";
                                 "Error during DDB UPDATE"] |}).
Proof.
  intros Hv Ha Hm. unfold handler. cbn [Records for_of].
  unfold mbind at 1, Prog_bind at 1.
  rewrite (handle_record_parsed _ r JNull a) by done. rewrite Hm.
  unfold switch. rewrite decide_False by done. rewrite decide_True by done.
  unfold updateContract. prog_unfold. cbn. by rewrite <- !app_assoc.
Qed.

End BatchProperties.

Lemma update_error_is_logged_and_rethrown_witness :
  handler parse_flat {| Records := [command "PUT" [("property_id", "p2")]; update_p1] |}
    (world0 {[ "p1" := p1_draft ]})
  = (Throw (ServiceException "ConditionalCheckFailedException"),
     logged ["Error during DDB UPDATE"]
       {| table := {[ "p1" := p1_draft ]}; stream := []; clock := clock0; tick := 1;
          console := ["Returning contract"; "Updating a contract";
                      "Record to update"] |}).
Proof.
  apply (update_error_is_logged_and_rethrown parse_flat
           (command "PUT" [("property_id", "p2")]) [update_p1]
           (JObj {[ "property_id" := JStr "p2" ]})
           {| stringValue := Some "PUT" |}
           (world0 {[ "p1" := p1_draft ]})).
  - vm_compute. reflexivity.
  - vm_compute. reflexivity.
  - reflexivity.
  - vm_compute. reflexivity.
Defined.

Lemma record_without_method_throws_witness :
  handler parse_flat {| Records := [no_method; update_p1] |}
    (world0 {[ "p1" := p1_draft ]})
  = match parse_flat (body no_method) with
    | Some _ =>
        (Throw (TypeError "Cannot read properties of undefined (reading 'stringValue')"),
         logged ["Returning contract"] (world0 {[ "p1" := p1_draft ]}))
    | None =>
        (Throw (Error "Error parsing SQS Record"),
         logged ["Error parsing SQS Record"] (world0 {[ "p1" := p1_draft ]}))
    end.
Proof.
  apply (record_without_method_throws parse_flat no_method [update_p1]
           (world0 {[ "p1" := p1_draft ]})).
  vm_compute. reflexivity.
Defined.

Lemma update_with_null_payload_throws_witness :
  handler parse_null_or_flat {| Records := [update_null; update_p1] |}
    (world0 {[ "p1" := p1_draft ]})
  = (Throw (TypeError "Cannot read properties of null (reading 'contract_id')"),
     {| table := table (world0 {[ "p1" := p1_draft ]});
        stream := stream (world0 {[ "p1" := p1_draft ]});
        clock := clock (world0 {[ "p1" := p1_draft ]});
        tick := S (tick (world0 {[ "p1" := p1_draft ]}));
        console := console (world0 {[ "p1" := p1_draft ]})
                   ++ ["Returning contract"; "Updating a contract";
                       "Error during DDB UPDATE"] |}).
Proof.
  apply (update_with_null_payload_throws parse_null_or_flat update_null [update_p1]
           {| stringValue := Some "PUT" |} (world0 {[ "p1" := p1_draft ]})).
  - vm_compute. reflexivity.
  - vm_compute. reflexivity.
  - reflexivity.
Defined.

Lemma update_of_draft_then_again_witness :
  updateContract (JObj {[ "property_id" := JStr "p1" ]}) (world0 {[ "p1" := p1_draft ]})
  = (Return tt, after_update "p1" p1_draft (world0 {[ "p1" := p1_draft ]}))
  ∧ ∃ e w'',
      updateContract (JObj {[ "property_id" := JStr "p1" ]})
        (after_update "p1" p1_draft (world0 {[ "p1" := p1_draft ]}))
      = (Throw e, w'')
      ∧ table w'' = table (after_update "p1" p1_draft (world0 {[ "p1" := p1_draft ]}))
      ∧ table w'' !! "p1" ≫= (.!! "contract_status") = Some (AV_S "APPROVED").
Proof.
  apply (update_of_draft_then_again (JObj {[ "property_id" := JStr "p1" ]}) "p1"
           p1_draft (world0 {[ "p1" := p1_draft ]})).
  - vm_compute. reflexivity.
  - vm_compute. reflexivity.
  - eexists. vm_compute. reflexivity.
  - vm_compute. reflexivity.
Defined.

Lemma accepted_update_gives_one_event_witness :
  ∃ pid item r,
    table (world0 {[ "p1" := p1_draft ]}) !! pid = Some item
    ∧ stream (after_update "p1" p1_draft (world0 {[ "p1" := p1_draft ]}))
      = (stream (world0 {[ "p1" := p1_draft ]}) ++ [r])%list
    ∧ NewImage r
      = table (after_update "p1" p1_draft (world0 {[ "p1" := p1_draft ]})) !! pid
    ∧ canonical_events pipe r =
        [ {| Source := "unicorn.contracts";
             DetailType := "ContractStatusChanged";
             Detail :=
               [("property_id", string_attribute item "property_id");
                ("contract_id", string_attribute item "contract_id");
                ("contract_status", Some (JStr "APPROVED"));
                ("contract_last_modified_on",
                 string_attribute item "contract_last_modified_on")] |} ].
Proof.
  apply (accepted_update_gives_one_event (JObj {[ "property_id" := JStr "p1" ]})
           (world0 {[ "p1" := p1_draft ]})
           (after_update "p1" p1_draft (world0 {[ "p1" := p1_draft ]}))).
  vm_compute. reflexivity.
Defined.

(** ** More on the pipe *)

(** X10: the event of an entry is made of its after-image alone: two entries with
    the same after-image give the same event, whatever their event names, keys
    and before-images; when both are insertions or modifications, the pipe
    publishes the same for both. *)
Theorem event_depends_on_after_image_only r r' :
  NewImage r = NewImage r' →
  transform pipe r = transform pipe r'
  ∧ (eventName r ∈ ["INSERT"; "MODIFY"] →
     eventName r' ∈ ["INSERT"; "MODIFY"] →
     canonical_events pipe r = canonical_events pipe r').
Proof.
  intros Himg.
  assert (Ht : transform pipe r = transform pipe r').
  { unfold transform.
    cbn [pipe inputTemplate eventBridgeEventBusParameters source detailType
         fmap list_fmap fst snd].
    by rewrite !record_json_attribute, Himg. }
  split; [done|]. intros Hr Hr'.
  unfold canonical_events. rewrite Ht, !admitted_pipe, Himg.
  by rewrite !bool_decide_eq_true_2.
Qed.

Lemma event_depends_on_after_image_only_witness :
  transform pipe p1_creation
  = transform pipe {| eventName := "MODIFY"; Keys := ∅; OldImage := Some p1_approved;
                      NewImage := Some p1_draft |}
  ∧ (eventName p1_creation ∈ ["INSERT"; "MODIFY"] →
     eventName {| eventName := "MODIFY"; Keys := ∅; OldImage := Some p1_approved;
                  NewImage := Some p1_draft |} ∈ ["INSERT"; "MODIFY"] →
     canonical_events pipe p1_creation
     = canonical_events pipe {| eventName := "MODIFY"; Keys := ∅;
                                OldImage := Some p1_approved;
                                NewImage := Some p1_draft |}).
Proof.
  apply (event_depends_on_after_image_only p1_creation
           {| eventName := "MODIFY"; Keys := ∅; OldImage := Some p1_approved;
              NewImage := Some p1_draft |}).
  reflexivity.
Defined.

(** ** More on the existence check *)

(** X11: whatever the read does, the existence check throws nothing but the
    not-found exception with status code 400. Every other failure is caught
    and returned with status code 500, and a response with status code 200
    carries a status whose [contract_id] is there and is not the empty
    string. *)
Theorem existence_check_throws_not_found_only send event :
  (∀ e, ContractExistsCheckerFunction.handler send event = Throw e →
        e = ContractStatusNotFoundException 400)
  ∧ (∀ response,
       ContractExistsCheckerFunction.handler send event = Return response →
       (ContractExistsCheckerFunction.statusCode response = 500%Z
        ∧ ∃ e, ContractExistsCheckerFunction.body response
               = ContractExistsCheckerFunction.stringify_error e)
       ∨ (ContractExistsCheckerFunction.statusCode response = 200%Z
          ∧ ∃ status contract_id,
              ContractExistsCheckerFunction.body response
              = ContractExistsCheckerFunction.stringify (Some status)
              ∧ prop status "contract_id" = Some contract_id
              ∧ strict_eq_string (Some contract_id) "" = false)).
Proof.
  unfold ContractExistsCheckerFunction.handler.
  destruct (ContractExistsCheckerFunction.check send event)
    as [[currentStatus contractExists]|e0] eqn:Hcheck.
  - destruct contractExists; cbn [negb].
    + split; [done|]. intros response [= <-]. right. split; [done|].
      unfold ContractExistsCheckerFunction.check in Hcheck.
      destruct (get_member (Some event) "Input") as [detail|]; [|done].
      cbn [mbind Outcome_bind] in Hcheck.
      destruct (get_member detail "property_id") as [propertyId|]; [|done].
      cbn [mbind Outcome_bind] in Hcheck.
      destruct (ContractExistsCheckerFunction.getContractStatus send propertyId)
        as [[status|]|]; cbn [mbind Outcome_bind] in Hcheck; try done.
      destruct (get_member (Some status) "contract_id") as [c_id|] eqn:Hc;
        cbn [mbind Outcome_bind] in Hcheck; [|done].
      destruct (is_undefined c_id || strict_eq_string c_id "") eqn:Hor; [done|].
      injection Hcheck as <-. apply orb_false_iff in Hor as [Hu Hs].
      destruct c_id as [c|]; [|done].
      exists status, c. split; [done|]. split; [|done].
      destruct status; cbn in Hc; try discriminate Hc. by injection Hc.
    + split; [by intros e [= <-]|done].
  - split; [done|]. intros response [= <-]. left. split; [done|]. by eexists.
Qed.

(** X12: an event without [Input], or whose [Input] is [null], is answered with
    status code 500 and the [TypeError] of the failed access: the table is
    not read. *)
Theorem existence_check_event_without_input event :
  prop event "Input" = None ∨ prop event "Input" = Some JNull →
  ∃ message, ∀ send,
    ContractExistsCheckerFunction.handler send event
    = Return {| ContractExistsCheckerFunction.statusCode := 500;
                ContractExistsCheckerFunction.body :=
                  ContractExistsCheckerFunction.stringify_error (TypeError message) |}.
Proof.
  intros Hin.
  unfold ContractExistsCheckerFunction.handler, ContractExistsCheckerFunction.check.
  destruct event; cbn [get_member prop] in *;
    destruct Hin as [Hin|Hin]; try discriminate Hin;
    try rewrite Hin; cbn; by eexists.
Qed.

Lemma existence_check_event_without_input_witness :
  ∃ message, ∀ send,
    ContractExistsCheckerFunction.handler send (JObj {[ "property_id" := JStr "p1" ]})
    = Return {| ContractExistsCheckerFunction.statusCode := 500;
                ContractExistsCheckerFunction.body :=
                  ContractExistsCheckerFunction.stringify_error (TypeError message) |}.
Proof.
  apply (existence_check_event_without_input (JObj {[ "property_id" := JStr "p1" ]})).
  left. vm_compute. reflexivity.
Defined.

Lemma project_lookup_other attrs (item : Item) a :
  a ∉ attrs → project attrs item !! a = None.
Proof.
  intros Ha. unfold project. rewrite map_lookup_filter.
  destruct (item !! a); cbn; [|done]. by rewrite option_guard_False.
Qed.

(** X13: a found contract, stored as a [ContractStatus] under a valid key
    value, is answered with [contract_id], [property_id] and [contract_status]
    as stored, and with nothing else of the record: no other attribute of the
    item shows in the response. *)
Theorem existence_check_discloses_projection t event pid item :
  json_path ["Input"; "property_id"] event = Some (JStr pid) →
  valid_key_value pid = true →
  t !! pid = Some item →
  is_ContractStatus item →
  has_contract_id item = true →
  ∃ status,
    ContractExistsCheckerFunction.handler
      (ContractExistsCheckerFunction.send_GetItemCommand t) event
    = Return {| ContractExistsCheckerFunction.statusCode := 200;
                ContractExistsCheckerFunction.body :=
                  ContractExistsCheckerFunction.stringify (Some status) |}
    ∧ ∀ a, prop status a
           = if bool_decide (a ∈ ["contract_id"; "property_id"; "contract_status"])
             then ContractExistsCheckerFunction.unmarshall_value <$> item !! a
             else None.
Proof.
  intros Hpath Hvalid Ht _ Hc.
  exists (ContractExistsCheckerFunction.unmarshall (projected item)).
  rewrite (handler_answered t event pid Hpath Hvalid), Ht, Hc. split; [done|].
  intros a. unfold ContractExistsCheckerFunction.unmarshall, projected. cbn [prop].
  rewrite lookup_fmap. case_bool_decide.
  - by rewrite project_lookup.
  - by rewrite project_lookup_other.
Qed.

Lemma existence_check_discloses_projection_witness :
  ∃ status,
    ContractExistsCheckerFunction.handler
      (ContractExistsCheckerFunction.send_GetItemCommand {[ "p1" := p1_draft ]})
      (request "p1")
    = Return {| ContractExistsCheckerFunction.statusCode := 200;
                ContractExistsCheckerFunction.body :=
                  ContractExistsCheckerFunction.stringify (Some status) |}
    ∧ ∀ a, prop status a
           = if bool_decide (a ∈ ["contract_id"; "property_id"; "contract_status"])
             then ContractExistsCheckerFunction.unmarshall_value <$> p1_draft !! a
             else None.
Proof.
  apply (existence_check_discloses_projection {[ "p1" := p1_draft ]} (request "p1")
           "p1" p1_draft).
  - vm_compute. reflexivity.
  - vm_compute. reflexivity.
  - vm_compute. reflexivity.
  - apply p1_is_a_valid_ContractStatus.
  - vm_compute. reflexivity.
Defined.

Lemma has_contract_id_approved_at now (item : Item) :
  has_contract_id (approved_at now item) = has_contract_id item.
Proof. unfold has_contract_id, approved_at. by simplify_map_eq. Qed.

(** X14: an update, accepted or not, does not change whether the existence check
    finds the contract of a property: what was not found stays not found,
    what was found stays found. *)
Theorem update_keeps_existence contract w event pid :
  json_path ["Input"; "property_id"] event = Some (JStr pid) →
  ContractExistsCheckerFunction.handler
    (ContractExistsCheckerFunction.send_GetItemCommand
       (table (updateContract contract w).2)) event
  = Throw (ContractStatusNotFoundException 400)
  ↔ ContractExistsCheckerFunction.handler
      (ContractExistsCheckerFunction.send_GetItemCommand (table w)) event
    = Throw (ContractStatusNotFoundException 400).
Proof.
  intros Hpath. destruct (valid_key_value pid) eqn:Hvalid.
  - rewrite !(handler_answered _ event pid Hpath Hvalid).
    destruct (updateContract_approvals_only contract w pid)
      as [->|(item & now & -> & _ & ->)]; [done|].
    rewrite has_contract_id_approved_at. by destruct (has_contract_id item).
  - by rewrite !(handler_invalid_key _ event pid Hpath Hvalid).
Qed.

Lemma update_keeps_existence_witness :
  ContractExistsCheckerFunction.handler
    (ContractExistsCheckerFunction.send_GetItemCommand
       (table (updateContract (JObj {[ "property_id" := JStr "p1" ]})
                 (world0 {[ "p1" := p1_draft ]})).2)) (request "p1")
  = Throw (ContractStatusNotFoundException 400)
  ↔ ContractExistsCheckerFunction.handler
      (ContractExistsCheckerFunction.send_GetItemCommand
         (table (world0 {[ "p1" := p1_draft ]}))) (request "p1")
    = Throw (ContractStatusNotFoundException 400).
Proof.
  apply (update_keeps_existence (JObj {[ "property_id" := JStr "p1" ]})
           (world0 {[ "p1" := p1_draft ]}) (request "p1") "p1").
  vm_compute. reflexivity.
Defined.

(** ** The shared index *)

(** X16: [eventBusName] gives a name exactly for the three namespaces, and never
    the same name twice: two calls that return the same bus name were made
    with the same stage and the same namespace. *)
Theorem eventBusName_names_are_distinct stage1 namespace1 stage2 namespace2 :
  ((∃ name, Shared.eventBusName stage1 namespace1 = Return name)
   ↔ namespace1 ∈ Shared.namespace_value
                    <$> [Shared.CONTRACTS; Shared.PROPERTIES; Shared.WEB])
  ∧ (∀ name,
       Shared.eventBusName stage1 namespace1 = Return name →
       Shared.eventBusName stage2 namespace2 = Return name →
       stage1 = stage2 ∧ namespace1 = namespace2).
Proof.
  unfold Shared.eventBusName. cbn [fmap list_fmap Shared.namespace_value].
  split.
  - rewrite !elem_of_cons, elem_of_nil.
    repeat case_decide; subst; split;
      try (intros _; by eexists); try (by intros [? [=]]);
      try (intros _;
           first [by left | by (right; left) | by (right; right; left)]).
    by intros [?|[?|[?|[]]]].
  - intros name.
    repeat case_decide; subst; cbn; intros [= <-] [= Heq]; by simplify_eq.
Qed.

(** ** The helpers of the integration tests *)

Lemma find_first_match {A} (f : A → bool) (l : list A) x :
  List.find f l = Some x
  ↔ ∃ pre post, l = (pre ++ x :: post)%list
                ∧ Forall (λ y, f y = false) pre ∧ f x = true.
Proof.
  induction l as [|y l IH]; cbn.
  - split; [done|]. intros (pre & post & Heq & _). by destruct pre.
  - destruct (f y) eqn:Hy.
    + split.
      * intros [= <-]. exists [], l. by repeat split.
      * intros ([|z pre] & post & [= -> ->] & Hpre & Hx); [done|].
        apply Forall_cons in Hpre as [Hz _]. congruence.
    + rewrite IH. split.
      * intros (pre & post & -> & Hpre & Hx). exists (y :: pre), post.
        split; [done|]. split; [by constructor|done].
      * intros ([|z pre] & post & [= -> ->] & Hpre & Hx); [congruence|].
        apply Forall_cons in Hpre as [_ Hpre]. by exists pre, post.
Qed.

(** X17: [findOutputValue] returns [v] exactly when the first stack of the answer
    has outputs and the first of them with the asked key holds [v]: later
    stacks and later outputs of the same key are not looked at, so a first
    match without a value hides every later one. *)
Theorem findOutputValue_first_match stackResources outputKey v :
  Helper.findOutputValue (Return stackResources) outputKey = Return v
  ↔ ∃ stack stacks pre output post,
      Helper.Stacks stackResources = Some (stack :: stacks)
      ∧ Helper.Outputs stack = Some (pre ++ output :: post)%list
      ∧ Forall (λ o, Helper.OutputKey o ≠ Some outputKey) pre
      ∧ Helper.OutputKey output = Some outputKey
      ∧ Helper.OutputValue output = Some v.
Proof.
  unfold Helper.findOutputValue. cbn [mbind Outcome_bind].
  split.
  - destruct (Helper.Stacks stackResources) as [[|stack stacks]|]; try done.
    destruct (Helper.Outputs stack) as [[|o outputs]|] eqn:Hout; try done.
    destruct (List.find _ (o :: outputs)) as [output|] eqn:Hfind; [|done].
    cbn [mbind option_bind].
    destruct (Helper.OutputValue output) as [v'|] eqn:Hv; [|done].
    intros [= <-].
    apply find_first_match in Hfind as (pre & post & Heq & Hpre & Hkey).
    exists stack, stacks, pre, output, post. rewrite Hout, Heq.
    split; [done|]. split; [done|].
    split; [|split; [by apply bool_decide_eq_true in Hkey|done]].
    eapply Forall_impl; [exact Hpre|]. intros y Hy. by apply bool_decide_eq_false in Hy.
  - intros (stack & stacks & pre & output & post & -> & -> & Hpre & Hkey & Hv).
    assert (Hfind : List.find (λ o, bool_decide (Helper.OutputKey o = Some outputKey))
                      (pre ++ output :: post) = Some output).
    { apply find_first_match. exists pre, post. split; [done|].
      split; [|by apply bool_decide_eq_true].
      eapply Forall_impl; [exact Hpre|]. intros y Hy. by apply bool_decide_eq_false. }
    rewrite Hfind. cbn [mbind option_bind]. rewrite Hv.
    by destruct pre.
Qed.

Lemma detail_property_id_not_null ev :
  ev ≠ JNull →
  Helper.detail_property_id ev = Return (json_path ["detail"; "property_id"] ev).
Proof.
  intros Hnull. unfold Helper.detail_property_id.
  rewrite get_member_not_null by done. cbn [mbind Outcome_bind json_path].
  destruct (prop ev "detail") as [d|]; [|done].
  destruct d as [| | | | |m]; cbn; try done. by destruct (m !! "property_id").
Qed.

Lemma detail_property_id_path ev p :
  Helper.detail_property_id ev = Return p →
  p = json_path ["detail"; "property_id"] ev.
Proof.
  intros Hp. assert (ev ≠ JNull) by (by intros ->).
  rewrite detail_property_id_not_null in Hp by done. by injection Hp.
Qed.

Lemma for_yield_elem {A} (P : json → Prop) (l : list A) body :
  (∀ x y, x ∈ l → y ∈ (body x).1 → P y) →
  ∀ y, y ∈ (Helper.for_yield l body).1 → P y.
Proof.
  induction l as [|x l IH]; intros Hbody y; cbn [Helper.for_yield].
  - by intros ?%elem_of_nil.
  - pose proof (Hbody x) as Hx.
    destruct (body x) as [ys [[]|e]]; cbn [fst] in *.
    + destruct (Helper.for_yield l body) as [ys' o] eqn:Hrest. cbn [fst] in *.
      intros [Hy|Hy]%elem_of_app.
      * apply (Hx y); [by left|done].
      * apply IH; [|done]. intros x' y' Hx'. apply Hbody. by right.
    + intros Hy. apply (Hx y); [by left|done].
Qed.

Lemma elem_of_concat_2 {A} (x : A) (l : list A) (ls : list (list A)) :
  x ∈ l → l ∈ ls → x ∈ concat ls.
Proof.
  intros Hx. induction ls as [|l' ls IH]; [by intros ?%elem_of_nil|].
  cbn [concat]. intros [->|Hl]%elem_of_cons; apply elem_of_app; [by left|].
  right. by apply IH.
Qed.

Section LogProperties.

Variable JSON_parse : string → option json.

Lemma inspect_parsed propertyId event ev :
  JSON_parse (Helper.message_text event) = Some ev →
  ev ≠ JNull →
  Helper.inspect JSON_parse propertyId event
  = (if concerns propertyId ev then [ev] else [], Return tt).
Proof.
  intros Hev Hnull. unfold Helper.inspect, concerns.
  rewrite Hev, detail_property_id_not_null by done.
  by destruct (strict_eq_string _ _).
Qed.

Lemma inspect_yield propertyId event ev :
  ev ∈ (Helper.inspect JSON_parse propertyId event).1 →
  JSON_parse (Helper.message_text event) = Some ev ∧ concerns propertyId ev = true.
Proof.
  unfold Helper.inspect, concerns.
  destruct (JSON_parse (Helper.message_text event)) as [ev'|];
    [|by intros ?%elem_of_nil].
  destruct (Helper.detail_property_id ev') as [p|] eqn:Hp;
    [|by intros ?%elem_of_nil].
  apply detail_property_id_path in Hp as ->.
  destruct (strict_eq_string _ _) eqn:Hs; [|by intros ?%elem_of_nil].
  cbn [fst]. intros Hin. apply elem_of_cons in Hin as [->|Hin]; [done|].
  by apply elem_of_nil in Hin.
Qed.

(** X18: every event [getCloudWatchLogsValues] yields is the parsed message of one
    of the fetched log events, and its [detail.property_id] is the asked
    property, also when the generator ends by a throw. *)
Theorem logs_yield_only_matching responses propertyId ev :
  ev ∈ (Helper.getCloudWatchLogsValues JSON_parse responses propertyId).1 →
  concerns propertyId ev = true
  ∧ ∃ event, event ∈ log_events responses
             ∧ JSON_parse (Helper.message_text event) = Some ev.
Proof.
  unfold Helper.getCloudWatchLogsValues.
  apply (for_yield_elem
           (λ ev, concerns propertyId ev = true
                  ∧ ∃ event, event ∈ log_events responses
                             ∧ JSON_parse (Helper.message_text event) = Some ev)).
  intros response y Hresponse.
  apply (for_yield_elem
           (λ ev, concerns propertyId ev = true
                  ∧ ∃ event, event ∈ log_events responses
                             ∧ JSON_parse (Helper.message_text event) = Some ev)).
  intros event y' Hevent [Hparse Hc]%inspect_yield.
  split; [done|]. exists event. split; [|done].
  unfold log_events.
  apply (elem_of_concat_2 _ (default [] (Helper.events response))); [done|].
  by apply (list_elem_of_fmap_2 (λ r, default [] (Helper.events r))).
Qed.

Lemma for_yield_inspect propertyId events evs :
  Forall2 (λ event ev, JSON_parse (Helper.message_text event) = Some ev ∧ ev ≠ JNull)
    events evs →
  Helper.for_yield events (Helper.inspect JSON_parse propertyId)
  = (List.filter (concerns propertyId) evs, Return tt).
Proof.
  induction 1 as [|event ev events evs [Hev Hnull] _ IH]; [done|].
  cbn [Helper.for_yield List.filter].
  rewrite (inspect_parsed _ _ ev), IH by done.
  by destruct (concerns propertyId ev).
Qed.

(** X19: when every fetched message parses to a value other than [null], the
    generator ends normally and yields exactly the events about the asked
    property, in the order of the answers and of their log events; an answer
    without events and a log event without message count for nothing. *)
Theorem logs_yield_all_matching responses propertyId evs :
  Forall2 (λ event ev, JSON_parse (Helper.message_text event) = Some ev ∧ ev ≠ JNull)
    (log_events responses) evs →
  Helper.getCloudWatchLogsValues JSON_parse responses propertyId
  = (List.filter (concerns propertyId) evs, Return tt).
Proof.
  unfold Helper.getCloudWatchLogsValues, log_events.
  revert evs. induction responses as [|response responses IH]; intros evs Hall.
  - apply Forall2_nil_inv_l in Hall as ->. done.
  - cbn [fmap list_fmap concat] in Hall.
    apply Forall2_app_inv_l in Hall as (evs1 & evs2 & H1 & H2 & ->).
    cbn [Helper.for_yield].
    rewrite (for_yield_inspect _ _ evs1 H1), (IH evs2 H2).
    by rewrite List.filter_app.
Qed.

End LogProperties.

Lemma logs_yield_only_matching_witness :
  concerns "p1" (JObj {[ "detail" := JObj {[ "property_id" := JStr "p1" ]} ]}) = true
  ∧ ∃ event, event ∈ log_events log_answers
             ∧ parse_log (Helper.message_text event)
               = Some (JObj {[ "detail" := JObj {[ "property_id" := JStr "p1" ]} ]}).
Proof.
  apply (logs_yield_only_matching parse_log log_answers "p1"
           (JObj {[ "detail" := JObj {[ "property_id" := JStr "p1" ]} ]})).
  vm_compute. constructor.
Defined.

Lemma logs_yield_all_matching_witness :
  Helper.getCloudWatchLogsValues parse_log log_answers "p1"
  = (List.filter (concerns "p1")
       [JObj {[ "detail" := JObj {[ "property_id" := JStr "p2" ]} ]};
        JObj {[ "detail" := JObj {[ "property_id" := JStr "p1" ]} ]};
        JObj ∅],
     Return tt).
Proof.
  apply (logs_yield_all_matching parse_log log_answers "p1").
  repeat constructor; done.
Defined.

(** X15: after an accepted update of a record that is a [ContractStatus]
    under a valid key value, the existence check of the same property reads
    the new status: it answers 200 with [contract_status] APPROVED and the
    stored [contract_id], provided the record holds a [contract_id] that is
    not empty; a record without one is approved and still reported as not
    found. *)
Theorem existence_check_after_accepted_update contract w w' event pid item :
  updateContract contract w = (Return tt, w') →
  prop contract "property_id" = Some (JStr pid) →
  json_path ["Input"; "property_id"] event = Some (JStr pid) →
  valid_key_value pid = true →
  table w !! pid = Some item →
  is_ContractStatus item →
  ∃ status,
    ContractExistsCheckerFunction.handler
      (ContractExistsCheckerFunction.send_GetItemCommand (table w')) event
    = (if has_contract_id item
       then Return {| ContractExistsCheckerFunction.statusCode := 200;
                      ContractExistsCheckerFunction.body :=
                        ContractExistsCheckerFunction.stringify (Some status) |}
       else Throw (ContractStatusNotFoundException 400))
    ∧ prop status "contract_status" = Some (JStr "APPROVED")
    ∧ prop status "contract_id"
      = ContractExistsCheckerFunction.unmarshall_value <$> item !! "contract_id".
Proof.
  intros Hrun Hp Hpath Hvalid Ht _.
  apply updateContract_accepted in Hrun as (pid' & item' & Hp' & Ht' & Hs & ->).
  rewrite Hp in Hp'. injection Hp' as <-. rewrite Ht in Ht'. injection Ht' as <-.
  exists (ContractExistsCheckerFunction.unmarshall
            (projected (approved_at (clock w (tick w)) item))).
  rewrite (handler_answered _ event pid Hpath Hvalid).
  unfold after_update. cbn [table]. rewrite lookup_insert_eq.
  rewrite has_contract_id_approved_at. split; [done|].
  unfold ContractExistsCheckerFunction.unmarshall, projected. cbn [prop].
  rewrite !lookup_fmap, !project_lookup by set_solver.
  unfold approved_at. by simplify_map_eq.
Qed.

Lemma existence_check_after_accepted_update_witness :
  ∃ status,
    ContractExistsCheckerFunction.handler
      (ContractExistsCheckerFunction.send_GetItemCommand
         (table (after_update "p1" p1_draft (world0 {[ "p1" := p1_draft ]}))))
      (request "p1")
    = (if has_contract_id p1_draft
       then Return {| ContractExistsCheckerFunction.statusCode := 200;
                      ContractExistsCheckerFunction.body :=
                        ContractExistsCheckerFunction.stringify (Some status) |}
       else Throw (ContractStatusNotFoundException 400))
    ∧ prop status "contract_status" = Some (JStr "APPROVED")
    ∧ prop status "contract_id"
      = ContractExistsCheckerFunction.unmarshall_value <$> p1_draft !! "contract_id".
Proof.
  apply (existence_check_after_accepted_update (JObj {[ "property_id" := JStr "p1" ]})
           (world0 {[ "p1" := p1_draft ]})
           (after_update "p1" p1_draft (world0 {[ "p1" := p1_draft ]}))
           (request "p1") "p1" p1_draft).
  - vm_compute. reflexivity.
  - vm_compute. reflexivity.
  - vm_compute. reflexivity.
  - vm_compute. reflexivity.
  - vm_compute. reflexivity.
  - apply p1_is_a_valid_ContractStatus.
Defined.
